(** * Open-graph generator: block composition, series and brick-wall grids

    Shallow embedding of [graphix_og_generator.py] and [og_blocks.py].
    Python integers are [Z], lists are [list], dictionaries are association
    lists with unique keys, exceptions and non-termination are the
    constructors of [outcome].  The state of Python's process-wide [random]
    module is threaded explicitly. *)

From Stdlib Require Import String.
From Stdlib Require Import ZArith List Bool QArith Lia Permutation DecimalString.
Import ListNotations.
Local Open Scope Z_scope.

(** ** Exceptions and results *)

Inductive exn : Type :=
| ValueError (msg : string)
| IndexError.

Inductive outcome (A : Type) : Type :=
| Return (a : A)
| Raise (e : exn)
| Diverge.      (* the loop is still running when the fuel is spent *)

Arguments Return {A} a.
Arguments Raise {A} e.
Arguments Diverge {A}.

Definition bind {A B : Type} (m : outcome A) (f : A -> outcome B) : outcome B :=
  match m with
  | Return a => f a
  | Raise e => Raise e
  | Diverge => Diverge
  end.

Notation "x <- m ;; k" := (bind m (fun x => k))
  (at level 61, m at next level, right associativity).

(** ** Python lists *)

Definition py_len {A : Type} (l : list A) : Z := Z.of_nat (length l).

Definition mem (x : Z) (l : list Z) : bool := existsb (Z.eqb x) l.

(** Normalisation of a slice bound: negative bounds count from the end, and
    the result is clamped to [0, len]. *)
Definition slice_bound (len i : Z) : nat :=
  Z.to_nat (Z.max 0 (Z.min len (if i <? 0 then i + len else i))).

(** [l[start:stop]], a missing bound being [None]. *)
Definition py_slice {A : Type} (start stop : option Z) (l : list A) : list A :=
  let len := py_len l in
  let a := match start with Some i => slice_bound len i | None => O end in
  let b := match stop with Some i => slice_bound len i | None => length l end in
  firstn (b - a) (skipn a l).

(** [l[i]] for a non-negative index. *)
Definition py_index {A : Type} (l : list A) (i : nat) : outcome A :=
  match nth_error l i with
  | Some x => Return x
  | None => Raise IndexError
  end.

(** [l.remove(x)]: drops the first occurrence, [ValueError] when absent. *)
Fixpoint py_remove (x : Z) (l : list Z) : outcome (list Z) :=
  match l with
  | [] => Raise (ValueError "list.remove(x): x not in list"%string)
  | y :: r => if x =? y then Return r
              else r' <- py_remove x r ;; Return (y :: r')
  end.

(** [for i in ins: l.remove(i)] *)
Fixpoint remove_all (ins l : list Z) : outcome (list Z) :=
  match ins with
  | [] => Return l
  | i :: r => l' <- py_remove i l ;; remove_all r l'
  end.

(** [max(l)] *)
Definition py_max (l : list Z) : outcome Z :=
  match l with
  | [] => Raise (ValueError "max() arg is an empty sequence"%string)
  | x :: r => Return (fold_left Z.max r x)
  end.

(** [start, start + 1, ..., start + len - 1] *)
Definition zseq (start : Z) (len : nat) : list Z :=
  map (fun i => start + Z.of_nat i) (seq 0 len).

(** [range(a, b)] *)
Definition py_range (a b : Z) : list Z := zseq a (Z.to_nat (b - a)).

Fixpoint zinsert (x : Z) (l : list Z) : list Z :=
  match l with
  | [] => [x]
  | y :: r => if x <=? y then x :: l else y :: zinsert x r
  end.

(** [sorted(l)] *)
Definition zsort (l : list Z) : list Z := fold_right zinsert [] l.

(** ** Python dictionaries keyed by integers *)

Definition dict (V : Type) : Type := list (Z * V).

Fixpoint dict_get {V : Type} (d : dict V) (k : Z) : option V :=
  match d with
  | [] => None
  | (k', v) :: r => if k =? k' then Some v else dict_get r k
  end.

(** [d[k] = v]: an existing key keeps its position. *)
Fixpoint dict_set {V : Type} (d : dict V) (k : Z) (v : V) : dict V :=
  match d with
  | [] => [(k, v)]
  | (k', v') :: r => if k =? k' then (k, v) :: r else (k', v') :: dict_set r k v
  end.

(** [dict(pairs)] and [{k: v for ...}]: later pairs overwrite earlier ones. *)
Definition dict_of_pairs {V : Type} (l : list (Z * V)) : dict V :=
  fold_left (fun d kv => dict_set d (fst kv) (snd kv)) l [].

(** [{**d1, **d2}] *)
Definition dict_update {V : Type} (d1 d2 : dict V) : dict V :=
  fold_left (fun d kv => dict_set d (fst kv) (snd kv)) d2 d1.

Definition dict_keys {V : Type} (d : dict V) : list Z := map fst d.
Definition dict_values {V : Type} (d : dict V) : list V := map snd d.

(** ** Open graphs *)

Inductive Plane : Type := XY | YZ | XZ.

Record Measurement : Type := mkMeasurement { angle : Q; plane : Plane }.

(** An undirected graph: a duplicate-free list of node identifiers and a list
    of edges, each stored with its smaller endpoint first. *)
Record Graph : Type := mkGraph { nodes : list Z; edges : list (Z * Z) }.

Definition norm_edge (e : Z * Z) : Z * Z :=
  if fst e <=? snd e then e else (snd e, fst e).

Definition edge_eqb (e1 e2 : Z * Z) : bool :=
  (fst e1 =? fst e2) && (snd e1 =? snd e2).

Fixpoint add_edge (e : Z * Z) (es : list (Z * Z)) : list (Z * Z) :=
  match es with
  | [] => [e]
  | e' :: r => if edge_eqb e e' then es else e' :: add_edge e r
  end.

Definition add_edges (es new : list (Z * Z)) : list (Z * Z) :=
  fold_left (fun acc e => add_edge (norm_edge e) acc) new es.

(** Nodes of [new] that are not yet in [old] are appended to [old]. *)
Definition add_nodes (old new : list Z) : list Z :=
  old ++ nodup Z.eq_dec (filter (fun v => negb (mem v old)) new).

(** [nx.Graph(edge_list)] *)
Definition graph_of_edges (es : list (Z * Z)) : Graph :=
  {| nodes := add_nodes [] (flat_map (fun e => [fst e; snd e]) es);
     edges := add_edges [] es |}.

(** [g.order()] *)
Definition order (g : Graph) : Z := py_len (nodes g).

Record OpenGraph : Type := mkOpenGraph {
  inside : Graph;
  measurements : dict Measurement;
  inputs : list Z;
  outputs : list Z
}.

(** ** The minimal blocks of [og_blocks.py] *)

Definition get_og_1 : OpenGraph :=
  let edge_list :=
    [(0, 2); (1, 4); (2, 3); (3, 4); (2, 5); (3, 6); (4, 7); (5, 6); (6, 7);
     (5, 8); (7, 9)] in
  let graph := graph_of_edges edge_list in
  let ins := [0; 1] in
  let outs := [8; 9] in
  let meas := dict_of_pairs
                (map (fun i => (i, mkMeasurement 0%Q XY)) (py_range 0 8)) in
  mkOpenGraph graph meas ins outs.

Definition get_og_2 : OpenGraph :=
  let graph := graph_of_edges
    [(0, 2); (1, 3); (2, 3); (2, 4); (3, 5); (4, 5); (4, 6); (5, 7)] in
  let ins := [0; 1] in
  let outs := [6; 7] in
  let meas := dict_of_pairs
    [(0, mkMeasurement (1 # 10)%Q XY);
     (1, mkMeasurement (1 # 10)%Q XY);
     (2, mkMeasurement (1 # 10)%Q XY);
     (3, mkMeasurement (1 # 10)%Q XY);
     (4, mkMeasurement 0%Q XY);
     (5, mkMeasurement (1 # 2)%Q YZ)] in
  mkOpenGraph graph meas ins outs.

(** ** The merge primitive *)

(** The smallest identifier above every element of [l]: one more than the
    maximum of [l]. *)
Definition fresh_label (l : list Z) : Z :=
  match l with
  | [] => 0
  | x :: r => fold_left Z.max r x + 1
  end.

(** Modelled from the spec: the external merge primitive
    [OpenGraph.compose(other, mapping)] of the graphix library, which is not
    part of this repository.  It forms the union of [self] with a relabelled
    copy of [other]: a node of [other] that is a key of [mapping] takes the
    label the mapping gives it (and is identified with the node of [self]
    carrying that label, if any); the remaining nodes of [other] are shifted,
    in increasing order, to fresh labels above every label in use.  A boundary
    node that was identified stays on a boundary only when it is on that
    boundary in both operands; the boundary of the result lists the surviving
    nodes of [self] first.  The second component is the complete relabelling
    of [other].  This is the merge itself, a total function; the checks the
    library makes on its arguments before it merges are [compose_checked],
    further down.  Its parts come first. *)

(** The nodes of [other] the mapping does not mention, in increasing order. *)
Definition unmapped_nodes (other : OpenGraph) (mapping : dict Z) : list Z :=
  zsort (filter (fun v => negb (mem v (dict_keys mapping)))
                (nodes (inside other))).

(** The first fresh label. *)
Definition compose_shift (self : OpenGraph) (mapping : dict Z) : Z :=
  fresh_label (nodes (inside self) ++ dict_values mapping).

(** The complete relabelling of [other]: the mapping, then the unmapped nodes
    sent to consecutive fresh labels (the two key sets are disjoint). *)
Definition mapping_complete (self other : OpenGraph) (mapping : dict Z) : dict Z :=
  let unmapped := unmapped_nodes other mapping in
  mapping ++ combine unmapped (zseq (compose_shift self mapping) (length unmapped)).

Definition relabel (mc : dict Z) (v : Z) : Z :=
  match dict_get mc v with
  | Some u => u
  | None => v
  end.

(** The nodes of [self] that a node of [other] is identified with. *)
Definition is_merged (self : OpenGraph) (mc : dict Z) (v : Z) : bool :=
  mem v (dict_values mc) && mem v (nodes (inside self)).

Definition merge_ports (self : OpenGraph) (mc : dict Z) (p1 p2 : list Z) : list Z :=
  let p2_mapped := map (relabel mc) p2 in
  filter (fun n => negb (is_merged self mc n) || mem n p2_mapped) p1
  ++ filter (fun n => negb (is_merged self mc n)) p2_mapped.

Definition compose_model (self other : OpenGraph) (mapping : dict Z)
  : OpenGraph * dict Z :=
  let mc := mapping_complete self other mapping in
  let g :=
    {| nodes := add_nodes (nodes (inside self))
                          (map (relabel mc) (nodes (inside other)));
       edges := add_edges (edges (inside self))
                          (map (fun e => (relabel mc (fst e), relabel mc (snd e)))
                               (edges (inside other))) |} in
  let meas :=
    dict_update (measurements self)
                (map (fun im => (relabel mc (fst im), snd im))
                     (measurements other)) in
  (mkOpenGraph g meas
               (merge_ports self mc (inputs self) (inputs other))
               (merge_ports self mc (outputs self) (outputs other)),
   mc).

(** ** Iteration *)

(** [for x in l: s = body(x, s)] *)
Fixpoint for_each {A St : Type} (l : list A) (body : A -> St -> outcome St)
  (s : St) : outcome St :=
  match l with
  | [] => Return s
  | x :: r => s' <- body x s ;; for_each r body s'
  end.

(** One step of [itertools.cycle]: the elements of the current pass still to
    come are [rest]; when they are used up the saved copy is replayed.  An
    empty iterable stops at once. *)
Definition cycle_next {A : Type} (saved rest : list A) : option (A * list A) :=
  match rest with
  | x :: r => Some (x, r)
  | [] => match saved with
          | x :: r => Some (x, r)
          | [] => None
          end
  end.

(** [for n, x in enumerate(cycle(saved), start=n0): if n == stop: break; body]
    The loop need not terminate, so it runs on [fuel]: one unit per pass
    through the loop head. *)
Fixpoint enumerate_cycle {A St : Type} (fuel : nat) (saved rest : list A)
  (n stop : Z) (body : Z -> A -> St -> outcome St) (s : St) : outcome St :=
  match fuel with
  | O => Diverge
  | S fuel' =>
    match cycle_next saved rest with
    | None => Return s
    | Some (x, rest') =>
      if n =? stop then Return s
      else s' <- body n x s ;;
           enumerate_cycle fuel' saved rest' (n + 1) stop body s'
    end
  end.

(** ** The generator *)

Section Generator.

(** The external merge primitive [og.compose(other, mapping)]: it returns
    the merged graph with the relabelling it used, or raises. *)
Variable compose : OpenGraph -> OpenGraph -> dict Z -> outcome (OpenGraph * dict Z).

(** Python's [random] module: the type of its state, the state installed by
    [random.seed(seed)], the index [random.choice] draws among [n]
    candidates and the index [floor(random() * n)] of [random.choices]. *)
Variable rng : Type.
Variable random_seed : Z -> rng.
Variable randbelow : nat -> rng -> nat * rng.
Variable randfloor : nat -> rng -> nat * rng.

(** [og, _ = self.compose(other, mapping)]: an exception of the primitive is
    not caught, it leaves the caller as it is. *)
Definition og_compose (self other : OpenGraph) (mapping : dict Z)
  : outcome OpenGraph :=
  r <- compose self other mapping ;; Return (fst r).

(** [random.choice(l)] *)
Definition random_choice {A : Type} (l : list A) (g : rng) : outcome (A * rng) :=
  match l with
  | [] => Raise IndexError
  | _ => let r := randbelow (length l) g in
         x <- py_index l (fst r) ;; Return (x, snd r)
  end.

(** [random.choices(l, k=k)]: [k] draws with replacement. *)
Fixpoint random_choices {A : Type} (l : list A) (k : nat) (g : rng)
  : outcome (list A * rng) :=
  match k with
  | O => Return ([], g)
  | S k' => let r := randfloor (length l) g in
            x <- py_index l (fst r) ;;
            xs <- random_choices l k' (snd r) ;;
            Return (x :: fst xs, snd xs)
  end.

(** A record of one call of the merge primitive: the step counter, the two
    operands and the mapping. *)
Definition call : Type := (Z * OpenGraph * OpenGraph * dict Z)%type.

Definition call_step (c : call) : Z := fst (fst (fst c)).
Definition call_self (c : call) : OpenGraph := snd (fst (fst c)).
Definition call_other (c : call) : OpenGraph := snd (fst c).
Definition call_mapping (c : call) : dict Z := snd c.

(** *** [BlockComposer.generate_og] *)

(** The closure [get_mapping] of [generate_og]; [og1], [og2] and [rnd] are
    the variables it captures. *)
Definition get_mapping (rnd : bool) (og1 og2 : OpenGraph)
  (merged_nodes_max : Z) (g : rng) : outcome (dict Z * rng) :=
  let min_io := Z.min (py_len (outputs og1)) (py_len (inputs og2)) in
  let merged_nodes_max :=
    if (merged_nodes_max >? min_io) || (merged_nodes_max <? 0)
    then min_io else merged_nodes_max in
  ins <- (if negb rnd
          then Return (py_slice None (Some merged_nodes_max) (inputs og2), g)
          else random_choices (inputs og2) (Z.to_nat merged_nodes_max) g) ;;
  outs <- (if negb rnd
           then Return (py_slice None (Some merged_nodes_max) (outputs og1),
                        snd ins)
           else random_choices (outputs og1) (Z.to_nat merged_nodes_max)
                               (snd ins)) ;;
  Return (dict_of_pairs (combine (fst ins) (fst outs)), snd outs).

(** The variables the main loop updates; [gs_calls] is a ghost log of the
    calls of the merge primitive, in order. *)
Record gen_state : Type := mkGenState {
  gs_og1 : OpenGraph;
  gs_og_lst : list OpenGraph;
  gs_og_nodes : list Z;
  gs_rng : rng;
  gs_calls : list call
}.

(** The body of the main loop, after the [break] test. *)
Definition gen_body (rnd : bool) (merged_nodes_max : Z) (n_blocks_set : list Z)
  (n : Z) (og2 : OpenGraph) (s : gen_state) : outcome gen_state :=
  mapping <- get_mapping rnd (gs_og1 s) og2 merged_nodes_max (gs_rng s) ;;
  let calls := gs_calls s ++ [(n, gs_og1 s, og2, fst mapping)] in
  og1 <- og_compose (gs_og1 s) og2 (fst mapping) ;;
  if mem n n_blocks_set
  then Return (mkGenState og1 (gs_og_lst s ++ [og1])
                          (gs_og_nodes s ++ [order (inside og1)])
                          (snd mapping) calls)
  else Return (mkGenState og1 (gs_og_lst s) (gs_og_nodes s)
                          (snd mapping) calls).

(** The body of the post-processing loop: the inputs of [og] are edited in
    place. *)
Definition truncate_inputs (rnd : bool) (og : OpenGraph) (ni_max : Z) (g : rng)
  : outcome (OpenGraph * rng) :=
  let ni_remove := Z.max 0 (py_len (inputs og) - ni_max) in
  ins <- (if negb rnd
          then Return (py_slice (Some ni_remove) None (inputs og), g)
          else random_choices (inputs og) (Z.to_nat ni_remove) g) ;;
  inputs' <- remove_all (fst ins) (inputs og) ;;
  Return (mkOpenGraph (inside og) (measurements og) inputs' (outputs og),
          snd ins).

(** [for og, ni_max in zip(og_lst, ni_max_vals): ...] *)
Fixpoint truncate_all (rnd : bool) (og_lst : list OpenGraph) (ni_max_vals : list Z)
  (g : rng) : outcome (list OpenGraph * rng) :=
  match og_lst, ni_max_vals with
  | og :: ogs, ni_max :: caps =>
    r <- truncate_inputs rnd og ni_max g ;;
    rs <- truncate_all rnd ogs caps (snd r) ;;
    Return (fst r :: fst rs, snd rs)
  | _, _ => Return (og_lst, g)
  end.

(** [generate_og] with everything it leaves behind: its two result lists,
    the state of the random generator and the ghost log.  [g0] is the state
    of the random generator when the call starts. *)
Definition generate_og_run (fuel : nat) (g0 : rng) (og_blocks : list OpenGraph)
  (n_blocks : list Z) (merged_nodes_max : Z) (ni_max_vals : option (list Z))
  (rnd : bool) (seed : Z) : outcome gen_state :=
  n_max <- py_max n_blocks ;;
  let n_blocks_set := nodup Z.eq_dec n_blocks in
  let g := if rnd then random_seed seed else g0 in
  og1 <- (if negb rnd
          then og <- py_index og_blocks 0 ;; Return (og, g)
          else random_choice og_blocks g) ;;
  s <- enumerate_cycle fuel og_blocks og_blocks 1 n_max
         (gen_body rnd merged_nodes_max n_blocks_set)
         (mkGenState (fst og1) [] [] (snd og1) []) ;;
  match ni_max_vals with
  | Some (ni_max :: caps) =>
    r <- truncate_all rnd (gs_og_lst s) (ni_max :: caps) (gs_rng s) ;;
    Return (mkGenState (gs_og1 s) (fst r) (gs_og_nodes s) (snd r) (gs_calls s))
  | _ => Return s
  end.

(** The value [generate_og] returns: [(og_lst, og_nodes)]. *)
Definition generate_og (fuel : nat) (g0 : rng) (og_blocks : list OpenGraph)
  (n_blocks : list Z) (merged_nodes_max : Z) (ni_max_vals : option (list Z))
  (rnd : bool) (seed : Z) : outcome (list OpenGraph * list Z) :=
  s <- generate_og_run fuel g0 og_blocks n_blocks merged_nodes_max
                       ni_max_vals rnd seed ;;
  Return (gs_og_lst s, gs_og_nodes s).

(** *** [get_series_composition] *)

(** The body of the loop; the second component is a ghost log of the calls
    of the merge primitive, numbered from 1. *)
Definition series_body (og_aux : OpenGraph) (i : Z) (s : OpenGraph * list call)
  : outcome (OpenGraph * list call) :=
  let og := fst s in
  let mapping := dict_of_pairs (combine (inputs og_aux) (outputs og)) in
  og' <- og_compose og og_aux mapping ;;
  Return (og', snd s ++ [(i + 1, og, og_aux, mapping)]).

Definition get_series_composition_run (og : OpenGraph) (n : Z)
  : outcome (OpenGraph * list call) :=
  let og_aux := og in   (* deepcopy(og) *)
  for_each (py_range 0 n) (series_body og_aux) (og, []).

Definition get_series_composition (og : OpenGraph) (n : Z) : outcome OpenGraph :=
  r <- get_series_composition_run og n ;; Return (fst r).

(** *** [get_grid_composition] *)

(** The body of the loop of [get_layers]: the state is [(og0, og1)]. *)
Definition layers_body (og_aux : OpenGraph) (n_rows : Z) (n : Z)
  (s : OpenGraph * OpenGraph) : outcome (OpenGraph * OpenGraph) :=
  let og0 := fst s in
  let og1 := snd s in
  let shift := order (inside og0) in
  let ports := inputs og_aux ++ outputs og_aux in
  let mapping := dict_of_pairs (combine ports (zseq shift (length ports))) in
  og0' <- og_compose og0 og_aux mapping ;;
  if n <? n_rows - 1
  then og1' <- og_compose og1 og_aux mapping ;; Return (og0', og1')
  else Return (og0', og1).

Definition get_layers (og : OpenGraph) (n_rows : Z)
  : outcome (OpenGraph * OpenGraph) :=
  let og0 := og in
  let og1 := og in      (* deepcopy(og) *)
  let og_aux := og in   (* deepcopy(og) *)
  for_each (py_range 1 n_rows) (layers_body og_aux n_rows) (og0, og1).

Definition add_l0 (l0 : OpenGraph) (og : OpenGraph) : outcome OpenGraph :=
  outs <- (if py_len (outputs og) =? 3
           then Return (py_slice None (Some (-1)) (outputs og))
           else
             (* the second output of og is moved to the end *)
             let outs0 := outputs og in   (* copy(og.outputs) *)
             x <- py_index outs0 1 ;;
             let outs1 := outs0 ++ [x] in
             y <- py_index outs1 1 ;;
             py_remove y outs1) ;;
  let mapping := dict_of_pairs (combine (inputs l0) outs) in
  og_compose og l0 mapping.

Definition add_l1 (l1 : OpenGraph) (og : OpenGraph) : outcome OpenGraph :=
  let outs := if py_len (outputs og) >? 3
              then py_slice (Some 1) (Some (-1)) (outputs og)
              else py_slice (Some 1) None (outputs og) in
  let mapping := dict_of_pairs (combine (inputs l1) outs) in
  og_compose og l1 mapping.

Definition layers_msg : string := "Number of layers  must be larger than 1".
Definition rows_msg : string := "Number of rows  must be larger than 1".

Definition get_grid_composition (fuel : nat) (og : OpenGraph)
  (n_rows n_layers : Z) : outcome OpenGraph :=
  if n_layers <? 1 then Raise (ValueError layers_msg)
  else if n_rows <? 1 then Raise (ValueError rows_msg)
  else
    ls <- get_layers og n_rows ;;
    let l0 := fst ls in
    let l1 := snd ls in
    let og := l0 in   (* deepcopy(l0): the initial layer *)
    let adders := [add_l1 l1; add_l0 l0] in
    enumerate_cycle fuel adders adders 0 (n_layers - 1)
                    (fun _ add_layer og => add_layer og) og.

End Generator.

Arguments gs_og1 {rng} _.
Arguments gs_og_lst {rng} _.
Arguments gs_og_nodes {rng} _.
Arguments gs_rng {rng} _.
Arguments gs_calls {rng} _.

(** The merge primitive of the model, as the generator takes it. *)
Definition compose_graphix (self other : OpenGraph) (mapping : dict Z)
  : outcome (OpenGraph * dict Z) :=
  Return (compose_model self other mapping).

(** The merge primitive with the checks the library makes on its arguments
    before it merges, each of which raises a [ValueError]: the keys of the
    mapping are nodes of [other]; no two keys have the same value; and when a
    measured node of [other] is sent to a measured node of [self], the two
    measurements agree, in plane and in angle (the library compares the angles
    up to a relative tolerance of 1e-9; here they are rationals and are
    compared exactly). *)
Definition py_str (z : Z) : string := NilZero.string_of_int (Z.to_int z).

Definition plane_eqb (p q : Plane) : bool :=
  match p, q with
  | XY, XY | YZ, YZ | XZ, XZ => true
  | _, _ => false
  end.

Definition isclose (m1 m2 : Measurement) : bool :=
  Qeq_bool (angle m1) (angle m2) && plane_eqb (plane m1) (plane m2).

(** The first pair [(v, u)] of the mapping whose two nodes are measured
    differently. *)
Definition measurement_clash (self other : OpenGraph) (mapping : dict Z)
  : option (Z * Z) :=
  find (fun vu =>
          match dict_get (measurements other) (fst vu),
                dict_get (measurements self) (snd vu) with
          | Some vm, Some um => negb (isclose vm um)
          | _, _ => false
          end)
       mapping.

Definition compose_checked (self other : OpenGraph) (mapping : dict Z)
  : outcome (OpenGraph * dict Z) :=
  if negb (forallb (fun k => mem k (nodes (inside other))) (dict_keys mapping))
  then Raise (ValueError "Keys of mapping must be correspond to the nodes of other.")
  else if negb (length mapping
                =? length (nodup Z.eq_dec (dict_values mapping)))%nat
  then Raise (ValueError "Values in mapping contain duplicates.")
  else
    match measurement_clash self other mapping with
    | Some (v, u) =>
      Raise (ValueError ("Attempted to merge nodes " ++ py_str v ++ ":"
                         ++ py_str u ++ " but have different measurements"))
    | None => compose_graphix self other mapping
    end.

(** A small linear congruential generator, to run the stochastic mode on. *)
Definition lcg_seed (seed : Z) : Z := seed mod 2147483648.
Definition lcg_draw (n : nat) (s : Z) : nat * Z :=
  let s' := (1103515245 * s + 12345) mod 2147483648 in
  (Z.to_nat (s' mod Z.of_nat n), s').

(** ** Notions used in the statements *)

(** The first [k] elements [itertools.cycle] yields from the state
    [(saved, rest)]. *)
Fixpoint cycle_take {A : Type} (k : nat) (saved rest : list A) : list A :=
  match k with
  | O => []
  | S k' => match cycle_next saved rest with
            | None => []
            | Some (x, rest') => x :: cycle_take k' saved rest'
            end
  end.

(** [og] with its input list replaced. *)
Definition with_inputs (og : OpenGraph) (ins : list Z) : OpenGraph :=
  mkOpenGraph (inside og) (measurements og) ins (outputs og).

(** A state of the main loop with the random generator replaced. *)
Definition with_rng {rng : Type} (g : rng) (s : gen_state rng) : gen_state rng :=
  mkGenState rng (gs_og1 s) (gs_og_lst s) (gs_og_nodes s) g (gs_calls s).

Definition map_outcome {A B : Type} (f : A -> B) (o : outcome A) : outcome B :=
  x <- o ;; Return (f x).

Definition disjoint (a b : list Z) : Prop := forall x, In x a -> ~ In x b.

(** [msg] is the message of a [ValueError] that some call of the merge
    primitive raises. *)
Definition raised_by_compose
  (compose : OpenGraph -> OpenGraph -> dict Z -> outcome (OpenGraph * dict Z))
  (msg : string) : Prop :=
  exists a b m, compose a b m = Raise (ValueError msg).

(** The invariants of an open graph that bear on its boundaries: node
    identifiers are unique, the inputs and the outputs are nodes, listed once
    each, and no input is an output. *)
Record ports_ok (og : OpenGraph) : Prop := mkPortsOk {
  po_nodes : NoDup (nodes (inside og));
  po_inputs : NoDup (inputs og);
  po_outputs : NoDup (outputs og);
  po_inputs_in : incl (inputs og) (nodes (inside og));
  po_outputs_in : incl (outputs og) (nodes (inside og));
  po_disjoint : disjoint (inputs og) (outputs og)
}.

(** Every node identifier is below the number of nodes, as when the nodes are
    numbered from 0. *)
Definition bounded_ids (og : OpenGraph) : Prop :=
  forall v, In v (nodes (inside og)) -> v < order (inside og).

(** [og] with one more copy of [og_aux] beside it, as the loop of
    [get_layers] builds it: the boundary nodes of the copy are sent to the
    labels [order], [order + 1], ... *)
Definition par_step (og_aux og : OpenGraph) : OpenGraph :=
  let ports := inputs og_aux ++ outputs og_aux in
  fst (compose_model og og_aux
         (dict_of_pairs (combine ports (zseq (order (inside og)) (length ports))))).

(** The number of pairs [get_mapping] asks for: [merged_nodes_max], replaced
    by the smaller of the two boundary sizes when it is negative or exceeds
    it. *)
Definition effective_width (og1 og2 : OpenGraph) (merged_nodes_max : Z) : Z :=
  let min_io := Z.min (py_len (outputs og1)) (py_len (inputs og2)) in
  if (merged_nodes_max >? min_io) || (merged_nodes_max <? 0)
  then min_io else merged_nodes_max.

(** [og'] is [og] but for its input list, which has lost some elements. *)
Definition only_inputs_dropped (og og' : OpenGraph) : Prop :=
  inside og' = inside og
  /\ measurements og' = measurements og
  /\ outputs og' = outputs og
  /\ incl (inputs og') (inputs og).

(** The node counts recorded along the steps [(n, block)] when every step
    adds the nodes of its block to a graph that has [acc] nodes, at the
    steps that are in [requested]. *)
Fixpoint node_counts (requested : list Z) (steps : list (Z * OpenGraph))
  (acc : Z) : list Z :=
  match steps with
  | [] => []
  | (n, b) :: r =>
    let acc' := acc + order (inside b) in
    (if mem n requested then [acc'] else []) ++ node_counts requested r acc'
  end.

(** The random generator draws its indices among the candidates. *)
Definition draws_in_range {rng : Type} (draw : nat -> rng -> nat * rng) : Prop :=
  forall n g, (0 < n)%nat -> (fst (draw n g) < n)%nat.

(** A block with two inputs and two outputs whose identifiers start at 1. *)
Definition block_from_one : OpenGraph :=
  mkOpenGraph (graph_of_edges [(1, 3); (2, 4)])
              (dict_of_pairs [(1, mkMeasurement 0%Q XY); (2, mkMeasurement 0%Q XY)])
              [1; 2] [3; 4].

(** A block with two inputs and two outputs whose identifiers start at 1 and
    whose inner node 5, the one that carries the number of nodes as its
    identifier, is measured at another angle than the inputs. *)
Definition block_measured_five : OpenGraph :=
  mkOpenGraph (graph_of_edges [(1, 5); (5, 3); (2, 4)])
              (dict_of_pairs [(1, mkMeasurement 0%Q XY);
                              (2, mkMeasurement 0%Q XY);
                              (5, mkMeasurement (1 # 2)%Q XY)])
              [1; 2] [3; 4].

(** * Properties *)

(** ** Results and loops *)

Lemma bind_return {A B : Type} (m : outcome A) (f : A -> outcome B) (b : B) :
  bind m f = Return b -> exists a, m = Return a /\ f a = Return b.
Proof.
  destruct m as [a | e |]; simpl; intros H; try discriminate.
  exists a; auto.
Qed.

Lemma for_each_app {A St : Type} (l1 l2 : list A) (body : A -> St -> outcome St) s :
  for_each (l1 ++ l2) body s = (s' <- for_each l1 body s ;; for_each l2 body s').
Proof.
  revert s; induction l1 as [| x l1 IH]; intros s; simpl; [reflexivity |].
  destruct (body x s) as [s1 | e |]; simpl; auto.
Qed.

(** A loop whose body always returns and keeps [P] returns, in a state where
    [P] holds. *)
Lemma for_each_total {A St : Type} (P : St -> Prop) (l : list A)
  (body : A -> St -> outcome St) :
  (forall x s, In x l -> P s -> exists s', body x s = Return s' /\ P s') ->
  forall s, P s -> exists s', for_each l body s = Return s' /\ P s'.
Proof.
  induction l as [| x l IH]; intros Hb s Hs; simpl.
  - exists s; auto.
  - destruct (Hb x s (or_introl eq_refl) Hs) as [s1 [E1 P1]].
    rewrite E1; simpl. apply IH; auto.
    intros y t Hy; apply Hb; right; exact Hy.
Qed.

Lemma zseq_length start len : length (zseq start len) = len.
Proof. unfold zseq. rewrite length_map, length_seq. reflexivity. Qed.

Lemma zseq_S start len : zseq start (S len) = start :: zseq (start + 1) len.
Proof.
  unfold zseq. simpl. f_equal; [lia |].
  rewrite <- seq_shift, map_map. apply map_ext. intros; lia.
Qed.

Lemma zseq_In start len x :
  In x (zseq start len) <-> start <= x < start + Z.of_nat len.
Proof.
  unfold zseq. rewrite in_map_iff. split.
  - intros [i [E Hi]]. apply in_seq in Hi. lia.
  - intros H. exists (Z.to_nat (x - start)). split; [lia |].
    apply in_seq. lia.
Qed.

Lemma zseq_NoDup start len : NoDup (zseq start len).
Proof.
  revert start; induction len as [| len IH]; intros start.
  - constructor.
  - rewrite zseq_S. constructor; [| apply IH].
    rewrite zseq_In. lia.
Qed.

Lemma map_fst_combine {A B : Type} (a : list A) (b : list B) :
  length a = length b -> map fst (combine a b) = a.
Proof.
  revert b; induction a as [| x a IH]; intros [| y b] L; simpl in *;
    try discriminate; auto.
  f_equal. apply IH. lia.
Qed.

Lemma map_snd_combine {A B : Type} (a : list A) (b : list B) :
  length a = length b -> map snd (combine a b) = b.
Proof.
  revert b; induction a as [| x a IH]; intros [| y b] L; simpl in *;
    try discriminate; auto.
  f_equal. apply IH. lia.
Qed.

Lemma zseq_snoc start len :
  zseq start (S len) = zseq start len ++ [start + Z.of_nat len].
Proof.
  unfold zseq. rewrite seq_S, map_app. reflexivity.
Qed.

(** *** [itertools.cycle] *)

Lemma cycle_take_length {A : Type} (k : nat) (saved rest : list A) :
  saved <> [] -> length (cycle_take k saved rest) = k.
Proof.
  intros Hne. revert rest; induction k as [| k IH]; intros rest; simpl; auto.
  destruct rest as [| x r]; simpl.
  - destruct saved as [| y t]; [congruence |]. simpl. rewrite IH; reflexivity.
  - rewrite IH; reflexivity.
Qed.

Lemma cycle_take_incl {A : Type} (k : nat) (saved rest : list A) :
  incl rest saved -> incl (cycle_take k saved rest) saved.
Proof.
  revert rest; induction k as [| k IH]; intros rest Hi; simpl.
  - intros x [].
  - destruct rest as [| x r]; simpl.
    + destruct saved as [| y t]; simpl; [intros x [] |].
      intros z [E | Hz]; [subst; left; reflexivity |].
      apply (IH t); [intros w Hw; right; exact Hw | exact Hz].
    + intros z [E | Hz]; [subst; apply Hi; left; reflexivity |].
      apply (IH r); [intros w Hw; apply Hi; right; exact Hw | exact Hz].
Qed.

(** The element yielded at position [i], counting from a state that has
    already consumed [p] elements of the current pass. *)
Lemma cycle_take_nth {A : Type} (saved : list A) :
  saved <> [] ->
  forall k p i, (p <= length saved)%nat -> (i < k)%nat ->
    nth_error (cycle_take k saved (skipn p saved)) i
    = nth_error saved ((p + i) mod length saved).
Proof.
  intros Hne. induction k as [| k IH]; intros p i Hp Hi; [lia |].
  assert (Hlen : (0 < length saved)%nat).
  { destruct saved; [congruence | simpl; lia]. }
  simpl. destruct (skipn p saved) as [| x r] eqn:E.
  - assert (p = length saved).
    { assert (L := length_skipn p saved). rewrite E in L. simpl in L. lia. }
    subst p. destruct saved as [| y t] eqn:Es; [congruence |]. simpl cycle_next. cbv iota.
    destruct i as [| i].
    + rewrite Nat.add_0_r, Nat.Div0.mod_same. reflexivity.
    + simpl nth_error at 1.
      assert (IH' := IH 1%nat i). simpl skipn in IH'. rewrite IH' by (simpl in *; lia).
      f_equal. rewrite <- Es in *.
      replace (length saved + S i)%nat with (1 + i + 1 * length saved)%nat by lia.
      rewrite Nat.Div0.mod_add. reflexivity.
  - simpl cycle_next. cbv iota.
    assert (Hp' : (p < length saved)%nat).
    { assert (L := length_skipn p saved). rewrite E in L. simpl in L. lia. }
    assert (Er : r = skipn (S p) saved).
    { replace (S p) with (1 + p)%nat by lia. rewrite <- skipn_skipn, E. reflexivity. }
    destruct i as [| i].
    + rewrite Nat.add_0_r, Nat.mod_small by lia. simpl.
      assert (Ex : nth_error (firstn p saved ++ skipn p saved) p = Some x).
      { rewrite nth_error_app2; rewrite length_firstn; [| lia].
        replace (p - Nat.min p (length saved))%nat with 0%nat by lia.
        rewrite E. reflexivity. }
      rewrite firstn_skipn in Ex. symmetry; exact Ex.
    + simpl nth_error at 1. rewrite Er, IH by lia.
      f_equal. f_equal. lia.
Qed.

(** The loop with [break] runs its body on the steps [n], ..., [stop - 1]
    with the elements the cycle yields, provided it has the fuel to reach
    the [break]. *)
Lemma enumerate_cycle_steps {A St : Type} (saved : list A)
  (body : Z -> A -> St -> outcome St) (stop : Z) :
  saved <> [] ->
  forall fuel rest n s,
    n <= stop -> (Z.to_nat (stop - n) < fuel)%nat ->
    enumerate_cycle fuel saved rest n stop body s
    = for_each (combine (zseq n (Z.to_nat (stop - n)))
                        (cycle_take (Z.to_nat (stop - n)) saved rest))
               (fun nx => body (fst nx) (snd nx)) s.
Proof.
  intros Hne. induction fuel as [| fuel IH]; intros rest n s Hn Hf; [lia |].
  simpl enumerate_cycle.
  destruct (cycle_next saved rest) as [[x rest'] |] eqn:E.
  - destruct (Z.eqb_spec n stop) as [-> | Hneq].
    + rewrite Z.sub_diag. reflexivity.
    + replace (Z.to_nat (stop - n)) with (S (Z.to_nat (stop - (n + 1)))) by lia.
      rewrite zseq_S. simpl cycle_take. rewrite E. simpl.
      destruct (body n x s) as [s1 | e |]; simpl; auto.
      apply IH; lia.
  - destruct rest; [destruct saved; [congruence | discriminate] | discriminate].
Qed.

(** ** Slices and removal *)

Lemma py_slice_from {A : Type} (k : Z) (l : list A) :
  0 <= k -> py_slice (Some k) None l = skipn (Z.to_nat k) l.
Proof.
  intros Hk. unfold py_slice, slice_bound, py_len.
  destruct (Z.ltb_spec k 0) as [? | _]; [lia |].
  destruct (Z_le_gt_dec (Z.of_nat (length l)) k) as [Hge | Hlt].
  - rewrite Z.min_l, Z.max_r by lia. rewrite Nat2Z.id, Nat.sub_diag.
    rewrite (skipn_all2 l (n := Z.to_nat k)) by lia. reflexivity.
  - rewrite Z.min_r, Z.max_r by lia.
    apply firstn_all2. rewrite length_skipn. lia.
Qed.

Lemma py_slice_to {A : Type} (k : Z) (l : list A) :
  0 <= k -> py_slice None (Some k) l = firstn (Z.to_nat k) l.
Proof.
  intros Hk. unfold py_slice, slice_bound, py_len.
  destruct (Z.ltb_spec k 0) as [? | _]; [lia |].
  simpl skipn. rewrite Nat.sub_0_r.
  destruct (Z_le_gt_dec (Z.of_nat (length l)) k) as [Hge | Hlt].
  - rewrite Z.min_l, Z.max_r by lia. rewrite Nat2Z.id.
    rewrite firstn_all, firstn_all2 by lia. reflexivity.
  - rewrite Z.min_r, Z.max_r by lia. reflexivity.
Qed.

Lemma In_firstn {A : Type} (n : nat) (l : list A) x : In x (firstn n l) -> In x l.
Proof.
  intros H. rewrite <- (firstn_skipn n l). apply in_or_app; left; exact H.
Qed.

Lemma In_skipn {A : Type} (n : nat) (l : list A) x : In x (skipn n l) -> In x l.
Proof.
  intros H. rewrite <- (firstn_skipn n l). apply in_or_app; right; exact H.
Qed.

Lemma py_slice_incl {A : Type} (a b : option Z) (l : list A) :
  incl (py_slice a b l) l.
Proof.
  unfold py_slice. intros x Hx.
  apply In_firstn in Hx. apply In_skipn in Hx. exact Hx.
Qed.

Lemma NoDup_skipn {A : Type} (n : nat) (l : list A) : NoDup l -> NoDup (skipn n l).
Proof.
  intros H. rewrite <- (firstn_skipn n l) in H.
  apply NoDup_app_remove_l in H. exact H.
Qed.

Lemma NoDup_firstn {A : Type} (n : nat) (l : list A) : NoDup l -> NoDup (firstn n l).
Proof.
  intros H. rewrite <- (firstn_skipn n l) in H.
  apply NoDup_app_remove_r in H. exact H.
Qed.


Lemma py_remove_In x l : In x l -> exists r, py_remove x l = Return r.
Proof.
  induction l as [| y l IH]; intros H; [destruct H |].
  simpl. destruct (Z.eqb_spec x y) as [-> | Hne].
  - eexists; reflexivity.
  - destruct H as [-> | H]; [congruence |].
    destruct (IH H) as [r ->]. eexists; reflexivity.
Qed.

(** Removing an element that occurs behind the prefix [a] leaves what follows
    it untouched and the prefix as long as it was. *)
Lemma py_remove_behind x a b :
  exists a', py_remove x (a ++ x :: b) = Return (a' ++ b)
             /\ length a' = length a /\ (~ In x a -> a' = a).
Proof.
  induction a as [| y a IH]; simpl.
  - rewrite Z.eqb_refl. exists []. auto.
  - destruct (Z.eqb_spec x y) as [-> | Hne].
    + exists (a ++ [y]). rewrite <- app_assoc. simpl.
      rewrite length_app. simpl. repeat split; [lia | tauto].
    + destruct IH as [a' [E [L N]]]. rewrite E. simpl.
      exists (y :: a'). simpl. repeat split; [lia |].
      intros Hn. f_equal. apply N. tauto.
Qed.

(** Removing, one by one, the elements of a suffix of the list always
    succeeds. *)
Lemma remove_all_suffix a b :
  exists a', remove_all b (a ++ b) = Return a'
             /\ length a' = length a /\ (NoDup (a ++ b) -> a' = a).
Proof.
  revert a; induction b as [| x b IH]; intros a; simpl.
  - rewrite app_nil_r. exists a. auto.
  - destruct (py_remove_behind x a b) as [a1 [E [L N]]]. rewrite E. simpl.
    destruct (IH a1) as [a2 [E2 [L2 N2]]]. exists a2.
    repeat split; [exact E2 | lia |].
    intros Hnd. assert (a1 = a).
    { apply N. intros Hin. apply NoDup_remove_2 in Hnd. apply Hnd.
      apply in_or_app; left; exact Hin. }
    subst a1. apply N2. apply NoDup_remove_1 in Hnd. exact Hnd.
Qed.

Lemma remove_all_self l : remove_all l l = Return [].
Proof.
  destruct (remove_all_suffix [] l) as [a' [E [L _]]]. simpl in E, L.
  destruct a'; [exact E | discriminate].
Qed.

Lemma remove_all_skipn (n : nat) (l : list Z) :
  exists r, remove_all (skipn n l) l = Return r
            /\ (NoDup l -> r = firstn n l).
Proof.
  destruct (remove_all_suffix (firstn n l) (skipn n l)) as [a' [E [_ N]]].
  rewrite firstn_skipn in E, N. exists a'. auto.
Qed.

(** ** Lists as sets, dictionaries *)

Lemma mem_true x l : mem x l = true <-> In x l.
Proof.
  unfold mem. rewrite existsb_exists. split.
  - intros [y [Hy E]]. apply Z.eqb_eq in E. subst; exact Hy.
  - intros H. exists x. split; [exact H | apply Z.eqb_refl].
Qed.

Lemma mem_false x l : mem x l = false <-> ~ In x l.
Proof.
  rewrite <- mem_true. destruct (mem x l); split; intros; congruence.
Qed.

Lemma mem_app x a b : mem x (a ++ b) = mem x a || mem x b.
Proof. apply existsb_app. Qed.

Lemma filter_all {A : Type} (f : A -> bool) (l : list A) :
  (forall x, In x l -> f x = true) -> filter f l = l.
Proof.
  intros H. apply forallb_filter_id. apply forallb_forall. exact H.
Qed.

Lemma filter_none {A : Type} (f : A -> bool) (l : list A) :
  (forall x, In x l -> f x = false) -> filter f l = [].
Proof.
  intros H. induction l as [| x l IH]; simpl; [reflexivity |].
  rewrite (H x (or_introl eq_refl)). apply IH. intros y Hy. apply H. right; exact Hy.
Qed.

(** Filtering out the elements of a sublist [s] shortens a duplicate-free
    list by the length of [s]. *)
Lemma filter_out_length (l s : list Z) :
  NoDup l -> NoDup s -> incl s l ->
  length (filter (fun x => negb (mem x s)) l) = (length l - length s)%nat.
Proof.
  intros Hl Hs Hi.
  assert (P : Permutation (filter (fun x => mem x s) l) s).
  { apply NoDup_Permutation; [apply NoDup_filter; exact Hl | exact Hs |].
    intros x. rewrite filter_In, mem_true. split; [tauto |].
    intros Hx. split; [apply Hi; exact Hx | exact Hx]. }
  apply Permutation_length in P.
  assert (L := filter_length (fun x => mem x s) l). cbv beta in L. lia.
Qed.

Lemma zinsert_In x y l : In x (zinsert y l) <-> x = y \/ In x l.
Proof.
  induction l as [| z l IH]; simpl; [intuition |].
  destruct (y <=? z); simpl; rewrite ?IH; intuition.
Qed.

Lemma zinsert_length y l : length (zinsert y l) = S (length l).
Proof.
  induction l as [| z l IH]; simpl; [reflexivity |].
  destruct (y <=? z); simpl; [reflexivity | rewrite IH; reflexivity].
Qed.

Lemma zsort_In x l : In x (zsort l) <-> In x l.
Proof.
  induction l as [| y l IH]; simpl; [tauto |].
  rewrite zinsert_In, IH. intuition.
Qed.

Lemma zsort_length l : length (zsort l) = length l.
Proof.
  induction l as [| y l IH]; simpl; [reflexivity |].
  rewrite zinsert_length, IH. reflexivity.
Qed.

Lemma add_nodes_In x old new : In x (add_nodes old new) <-> In x old \/ In x new.
Proof.
  unfold add_nodes. rewrite in_app_iff, nodup_In, filter_In.
  destruct (mem x old) eqn:E.
  - apply mem_true in E. simpl. intuition discriminate.
  - simpl. intuition.
Qed.

Lemma add_nodes_NoDup old new : NoDup old -> NoDup (add_nodes old new).
Proof.
  intros H. unfold add_nodes. apply NoDup_app; [exact H | apply NoDup_nodup |].
  intros x Hx Hy. apply nodup_In, filter_In in Hy. destruct Hy as [_ Hy].
  apply mem_true in Hx. rewrite Hx in Hy. discriminate.
Qed.

Lemma add_nodes_disjoint old new :
  NoDup new -> (forall x, In x new -> ~ In x old) ->
  add_nodes old new = old ++ new.
Proof.
  intros Hn Hd. unfold add_nodes. f_equal.
  rewrite filter_all.
  - apply nodup_fixed_point. exact Hn.
  - intros x Hx. apply negb_true_iff, mem_false. apply Hd. exact Hx.
Qed.

Lemma fold_left_max_spec l : forall x,
  (x <= fold_left Z.max l x)
  /\ (forall y, In y l -> y <= fold_left Z.max l x)
  /\ (fold_left Z.max l x = x \/ In (fold_left Z.max l x) l).
Proof.
  induction l as [| z l IH]; intros x; simpl.
  - repeat split; [lia | tauto | auto].
  - destruct (IH (Z.max x z)) as [H1 [H2 H3]]. repeat split.
    + lia.
    + intros y [-> | Hy]; [lia | apply H2; exact Hy].
    + destruct H3 as [H3 | H3]; [| right; right; exact H3].
      rewrite H3. destruct (Z.max_spec x z) as [[_ ->] | [_ ->]]; auto.
Qed.

Lemma py_max_spec l n_max :
  py_max l = Return n_max -> In n_max l /\ forall y, In y l -> y <= n_max.
Proof.
  destruct l as [| x l]; simpl; intros E; [discriminate |].
  injection E as <-.
  destruct (fold_left_max_spec l x) as [H1 [H2 H3]]. split.
  - destruct H3 as [-> | H3]; auto.
  - intros y [-> | Hy]; auto.
Qed.

(** Among the steps 1, ..., [n_max - 1], as many are requested as there
    are distinct values in [n_blocks], less one (the maximum itself). *)
Lemma requested_steps_count n_blocks n_max :
  py_max n_blocks = Return n_max ->
  Forall (fun n => 0 < n) n_blocks ->
  length (filter (fun n => mem n (nodup Z.eq_dec n_blocks))
                 (zseq 1 (Z.to_nat (n_max - 1))))
  = (length (nodup Z.eq_dec n_blocks) - 1)%nat.
Proof.
  intros Hmax Hpos. apply py_max_spec in Hmax. destruct Hmax as [Hin Hle].
  rewrite Forall_forall in Hpos.
  set (F := filter _ _).
  assert (P : Permutation (F ++ [n_max]) (nodup Z.eq_dec n_blocks)).
  { apply NoDup_Permutation.
    - apply NoDup_app.
      + apply NoDup_filter, zseq_NoDup.
      + repeat constructor. intros [].
      + intros x Hx [<- | []]. unfold F in Hx. apply filter_In in Hx.
        destruct Hx as [Hx _]. apply zseq_In in Hx. lia.
    - apply NoDup_nodup.
    - intros x. rewrite in_app_iff, nodup_In. unfold F.
      rewrite filter_In, zseq_In, mem_true, nodup_In. split.
      + intros [[_ H] | [<- | []]]; auto.
      + intros Hx. assert (0 < x) by (apply Hpos; exact Hx).
        assert (x <= n_max) by (apply Hle; exact Hx).
        destruct (Z.eq_dec x n_max) as [-> | Hne]; [right; left; reflexivity |].
        left. split; [lia | exact Hx]. }
  apply Permutation_length in P. rewrite length_app in P. simpl in P. lia.
Qed.

Lemma zseq_nth start len i :
  (i < len)%nat -> nth_error (zseq start len) i = Some (start + Z.of_nat i).
Proof.
  intros Hi. unfold zseq. rewrite nth_error_map.
  rewrite (nth_error_nth' _ 0%nat) by (rewrite length_seq; exact Hi).
  rewrite seq_nth by exact Hi. reflexivity.
Qed.

Lemma fresh_label_gt l x : In x l -> x < fresh_label l.
Proof.
  destruct l as [| y l]; simpl; intros H; [destruct H |].
  assert (S := fold_left_max_spec l y). destruct S as [H1 [H2 _]].
  destruct H as [<- | H]; [lia |]. specialize (H2 x H). lia.
Qed.

Lemma fresh_label_le l bound :
  0 <= bound -> (forall x, In x l -> x < bound) -> fresh_label l <= bound.
Proof.
  destruct l as [| y l]; simpl; intros Hb H; [exact Hb |].
  assert (S := fold_left_max_spec l y). destruct S as [_ [_ [E | E]]].
  - rewrite E. specialize (H y (or_introl eq_refl)). lia.
  - specialize (H _ (or_intror E)). lia.
Qed.

Lemma combine_keys {A B : Type} (a : list A) (b : list B) :
  map fst (combine a b) = firstn (length b) a.
Proof.
  revert b; induction a as [| x a IH]; intros [| y b]; simpl; auto.
  - f_equal. apply IH.
Qed.

Lemma combine_values {A B : Type} (a : list A) (b : list B) :
  map snd (combine a b) = firstn (length a) b.
Proof.
  revert b; induction a as [| x a IH]; intros [| y b]; simpl; auto.
  f_equal. apply IH.
Qed.

Lemma dict_get_app {V : Type} (a b : dict V) k :
  dict_get (a ++ b) k
  = match dict_get a k with Some v => Some v | None => dict_get b k end.
Proof.
  induction a as [| [k' v'] a IH]; simpl; [reflexivity |].
  destruct (k =? k'); [reflexivity | exact IH].
Qed.

Lemma dict_get_In {V : Type} (d : dict V) k v :
  dict_get d k = Some v -> In (k, v) d.
Proof.
  induction d as [| [k' v'] d IH]; simpl; [discriminate |].
  destruct (Z.eqb_spec k k') as [-> | Hne].
  - intros E. injection E as ->. left; reflexivity.
  - intros E. right. apply IH; exact E.
Qed.

Lemma dict_get_None {V : Type} (d : dict V) k :
  ~ In k (dict_keys d) -> dict_get d k = None.
Proof.
  induction d as [| [k' v'] d IH]; simpl; [reflexivity |].
  intros H. destruct (Z.eqb_spec k k') as [-> | Hne]; [tauto |].
  apply IH. tauto.
Qed.

Lemma dict_get_Some {V : Type} (d : dict V) k :
  In k (dict_keys d) -> exists v, dict_get d k = Some v.
Proof.
  induction d as [| [k' v'] d IH]; simpl; [tauto |].
  intros H. destruct (Z.eqb_spec k k') as [-> | Hne]; [eexists; reflexivity |].
  apply IH. destruct H; [congruence | assumption].
Qed.

Lemma dict_set_fresh {V : Type} (d : dict V) k v :
  ~ In k (dict_keys d) -> dict_set d k v = d ++ [(k, v)].
Proof.
  induction d as [| [k' v'] d IH]; simpl; [reflexivity |].
  intros H. destruct (Z.eqb_spec k k') as [-> | Hne]; [tauto |].
  f_equal. apply IH. tauto.
Qed.

(** A list of pairs with distinct keys is its own dictionary. *)
Lemma dict_of_pairs_NoDup {V : Type} (l : list (Z * V)) :
  NoDup (map fst l) -> dict_of_pairs l = l.
Proof.
  unfold dict_of_pairs.
  assert (G : forall acc, NoDup (map fst (acc ++ l)) ->
              fold_left (fun d kv => dict_set d (fst kv) (snd kv)) l acc = acc ++ l).
  { induction l as [| [k v] l IH]; intros acc H; simpl.
    - rewrite app_nil_r. reflexivity.
    - rewrite dict_set_fresh.
      + rewrite IH; rewrite <- app_assoc; [reflexivity | exact H].
      + rewrite map_app in H. simpl in H. apply NoDup_remove_2 in H.
        intros Hin. apply H. apply in_or_app. left. exact Hin. }
  intros H. apply (G []). exact H.
Qed.

Lemma dict_values_inj (d : dict Z) k1 k2 u :
  NoDup (dict_values d) -> In (k1, u) d -> In (k2, u) d -> k1 = k2.
Proof.
  induction d as [| [k v] d IH]; simpl; intros Hnd H1 H2; [destruct H1 |].
  inversion Hnd as [| ? ? Hnot Hnd']; subst.
  destruct H1 as [E1 | H1], H2 as [E2 | H2].
  - congruence.
  - injection E1 as -> ->. elim Hnot.
    apply (in_map snd) in H2. exact H2.
  - injection E2 as -> ->. elim Hnot.
    apply (in_map snd) in H1. exact H1.
  - apply IH; assumption.
Qed.

(** ** Exceptions through the loops *)

(** Where a [ValueError] that leaves a computation comes from: [Q] holds of
    the message of every [ValueError] the parts can raise. *)
Lemma bind_value_error {A B : Type} (Q : string -> Prop)
  (m : outcome A) (f : A -> outcome B) :
  (forall msg, m = Raise (ValueError msg) -> Q msg) ->
  (forall a msg, m = Return a -> f a = Raise (ValueError msg) -> Q msg) ->
  forall msg, bind m f = Raise (ValueError msg) -> Q msg.
Proof.
  intros Hm Hf msg. destruct m as [a | e |]; simpl.
  - apply Hf. reflexivity.
  - intros E. apply Hm. injection E as ->. reflexivity.
  - discriminate.
Qed.

Lemma py_index_no_value_error {A : Type} (l : list A) i msg :
  py_index l i <> Raise (ValueError msg).
Proof. unfold py_index. destruct (nth_error l i); discriminate. Qed.

Lemma for_each_value_error {A St : Type} (Q : string -> Prop) (l : list A)
  (f : A -> St -> outcome St) :
  (forall x s msg, f x s = Raise (ValueError msg) -> Q msg) ->
  forall s msg, for_each l f s = Raise (ValueError msg) -> Q msg.
Proof.
  intros Hf. induction l as [| x l IH]; intros s msg; simpl; [discriminate |].
  apply bind_value_error.
  - intros msg'. apply Hf.
  - intros s' msg' _. apply IH.
Qed.

Lemma enumerate_cycle_value_error {A St : Type} (Q : string -> Prop)
  (saved : list A) (f : Z -> A -> St -> outcome St) stop :
  (forall n x s msg, In x saved -> f n x s = Raise (ValueError msg) -> Q msg) ->
  forall fuel rest n s msg,
    incl rest saved ->
    enumerate_cycle fuel saved rest n stop f s = Raise (ValueError msg) -> Q msg.
Proof.
  intros Hf. induction fuel as [| fuel IH]; intros rest n s msg Hi; simpl;
    [discriminate |].
  destruct (cycle_next saved rest) as [[x rest'] |] eqn:E; [| discriminate].
  assert (Hx : In x saved /\ incl rest' saved).
  { unfold cycle_next in E. destruct rest as [| y r].
    - destruct saved as [| y r]; [discriminate |]. injection E as <- <-.
      split; [left; reflexivity | intros z Hz; right; exact Hz].
    - injection E as <- <-.
      split; [apply Hi; left; reflexivity
             | intros z Hz; apply Hi; right; exact Hz]. }
  destruct Hx as [Hx Hr].
  destruct (n =? stop); [discriminate |].
  apply bind_value_error.
  - intros msg'. apply Hf. exact Hx.
  - intros s' msg' _. apply IH. exact Hr.
Qed.

Section GeneratorProperties.

Variable compose : OpenGraph -> OpenGraph -> dict Z -> outcome (OpenGraph * dict Z).
Variable rng : Type.
Variable random_seed : Z -> rng.
Variable randbelow : nat -> rng -> nat * rng.
Variable randfloor : nat -> rng -> nat * rng.

Local Abbreviation truncate := (truncate_inputs rng randfloor).
Local Abbreviation truncate_list := (truncate_all rng randfloor).
Local Abbreviation body := (gen_body compose rng randfloor).
Local Abbreviation run := (generate_og_run compose rng random_seed randbelow randfloor).
Local Abbreviation generate := (generate_og compose rng random_seed randbelow randfloor).

(** *** Input truncation, deterministic mode *)

Lemma truncate_inputs_det og ni_max :
  exists r,
    (forall g, truncate false og ni_max g = Return (with_inputs og r, g))
    /\ (NoDup (inputs og) ->
        r = firstn (Z.to_nat (Z.max 0 (py_len (inputs og) - ni_max))) (inputs og)).
Proof.
  destruct (remove_all_skipn
              (Z.to_nat (Z.max 0 (py_len (inputs og) - ni_max))) (inputs og))
    as [r [E N]].
  exists r. split; [| exact N].
  intros g. unfold truncate_inputs. simpl.
  rewrite py_slice_from by lia. rewrite E. reflexivity.
Qed.

(** C1.  The code does not do what the claim says.  When the cap is not
    below the number of inputs, [ni_remove] is 0, the slice
    [og.inputs[ni_remove:]] is the whole list, and the loop removes every
    input: the graph is left with no input at all. *)
Theorem truncate_inputs_cap_reached og ni_max g :
  py_len (inputs og) <= ni_max ->
  truncate false og ni_max g = Return (with_inputs og [], g).
Proof.
  intros Hcap. unfold truncate_inputs. simpl.
  rewrite py_slice_from by lia.
  replace (Z.max 0 (py_len (inputs og) - ni_max)) with 0 by lia.
  simpl skipn. rewrite remove_all_self. reflexivity.
Qed.

(** C4.  The code does not do what the claim says.  When the cap is below
    the number of inputs, the identifiers removed are those of the slice
    [og.inputs[ni_remove:]], the tail of the list: the first
    [len(og.inputs) - ni_max] inputs are the ones that remain.  The graph and
    the measurements are not touched. *)
Theorem truncate_inputs_keeps_front og ni_max g :
  NoDup (inputs og) ->
  ni_max < py_len (inputs og) ->
  truncate false og ni_max g
  = Return (with_inputs og (firstn (Z.to_nat (py_len (inputs og) - ni_max))
                                   (inputs og)), g).
Proof.
  intros Hnd Hcap.
  destruct (truncate_inputs_det og ni_max) as [r [E N]].
  rewrite E, (N Hnd).
  replace (Z.max 0 (py_len (inputs og) - ni_max))
    with (py_len (inputs og) - ni_max) by lia.
  reflexivity.
Qed.

Lemma truncate_all_det ogs caps :
  exists r, (forall g, truncate_list false ogs caps g = Return (r, g))
            /\ length r = length ogs.
Proof.
  revert caps; induction ogs as [| og ogs IH]; intros caps.
  - exists []. destruct caps; simpl; auto.
  - destruct caps as [| cap caps].
    + exists (og :: ogs). simpl; auto.
    + destruct (truncate_inputs_det og cap) as [r [E _]].
      destruct (IH caps) as [rs [Es L]].
      exists (with_inputs og r :: rs). split; [| simpl; rewrite L; reflexivity].
      intros g. simpl truncate_all. rewrite E. simpl. rewrite Es. reflexivity.
Qed.

Lemma truncate_all_length rnd ogs caps g r :
  truncate_list rnd ogs caps g = Return r -> length (fst r) = length ogs.
Proof.
  revert caps g r; induction ogs as [| og ogs IH]; intros caps g r E.
  - destruct caps; simpl in E; injection E as <-; reflexivity.
  - destruct caps as [| cap caps]; [simpl in E; injection E as <-; reflexivity |].
    simpl truncate_all in E.
    apply bind_return in E. destruct E as [x [_ E]].
    apply bind_return in E. destruct E as [y [Ey E]].
    injection E as <-. simpl. f_equal. eapply IH; exact Ey.
Qed.

(** *** The main loop *)

Lemma get_mapping_det og1 og2 mnm :
  exists m, forall g, get_mapping rng randfloor false og1 og2 mnm g = Return (m, g).
Proof. eexists. intros g. unfold get_mapping. simpl. reflexivity. Qed.

Lemma gen_body_det mnm set n og2 s :
  (forall a b m, exists r, compose a b m = Return r) ->
  exists s', body false mnm set n og2 s = Return s'.
Proof.
  intros Htot. unfold gen_body.
  destruct (get_mapping_det (gs_og1 s) og2 mnm) as [m E]. rewrite E. simpl.
  unfold og_compose.
  destruct (Htot (gs_og1 s) og2 m) as [r Ec]. rewrite Ec.
  simpl. destruct (mem n set); eexists; reflexivity.
Qed.

(** What one pass of the body does to the state. *)
Lemma gen_body_spec rnd mnm set n og2 s s' :
  body rnd mnm set n og2 s = Return s' ->
  (exists m, gs_calls s' = gs_calls s ++ [(n, gs_og1 s, og2, m)])
  /\ length (gs_og_lst s')
     = (length (gs_og_lst s) + (if mem n set then 1 else 0))%nat
  /\ length (gs_og_nodes s')
     = (length (gs_og_nodes s) + (if mem n set then 1 else 0))%nat.
Proof.
  unfold gen_body. intros E.
  apply bind_return in E. destruct E as [m [_ E]].
  apply bind_return in E. destruct E as [og1 [_ E]].
  destruct (mem n set); injection E as <-; simpl;
    rewrite ?length_app; simpl; (split; [eexists; reflexivity | lia]).
Qed.

(** What the passes over [steps] do to the state. *)
Lemma gen_steps_spec rnd mnm set steps : forall s s',
  for_each steps (fun nx => body rnd mnm set (fst nx) (snd nx)) s = Return s' ->
  exists ext,
    gs_calls s' = gs_calls s ++ ext
    /\ map call_step ext = map fst steps
    /\ map call_other ext = map snd steps
    /\ (forall c, hd_error ext = Some c -> call_self c = gs_og1 s)
    /\ length (gs_og_lst s')
       = (length (gs_og_lst s)
          + length (filter (fun n => mem n set) (map fst steps)))%nat
    /\ length (gs_og_nodes s')
       = (length (gs_og_nodes s)
          + length (filter (fun n => mem n set) (map fst steps)))%nat.
Proof.
  induction steps as [| [n og2] steps IH]; intros s s' E.
  - simpl in E. injection E as <-. exists []. rewrite app_nil_r. simpl.
    repeat split; try lia. intros c Hc; discriminate.
  - simpl in E. apply bind_return in E. destruct E as [s1 [E1 E]].
    apply gen_body_spec in E1. destruct E1 as [[m Ec] [L1 L2]].
    destruct (IH _ _ E) as [ext [Hc [Hs [Ho [_ [M1 M2]]]]]].
    exists ((n, gs_og1 s, og2, m) :: ext).
    rewrite Hc, Ec, <- app_assoc. simpl. rewrite Hs, Ho.
    repeat split.
    + intros c Hc'. injection Hc' as <-. reflexivity.
    + rewrite M1, L1. destruct (mem n set); simpl; lia.
    + rewrite M2, L2. destruct (mem n set); simpl; lia.
Qed.

(** What a call that returns has done: the merge primitive was called at
    the steps 1, ..., [n_max - 1] and no other, each time with the next
    block of the cycle on the right. *)
Lemma run_spec fuel g0 og_blocks n_blocks n_max mnm caps rnd seed s :
  og_blocks <> [] ->
  py_max n_blocks = Return n_max ->
  1 <= n_max ->
  (Z.to_nat n_max <= fuel)%nat ->
  run fuel g0 og_blocks n_blocks mnm caps rnd seed = Return s ->
  map call_step (gs_calls s) = py_range 1 n_max
  /\ map call_other (gs_calls s)
     = cycle_take (Z.to_nat (n_max - 1)) og_blocks og_blocks
  /\ (rnd = false ->
      forall c, hd_error (gs_calls s) = Some c -> hd_error og_blocks = Some (call_self c))
  /\ length (gs_og_lst s)
     = length (filter (fun n => mem n (nodup Z.eq_dec n_blocks))
                      (py_range 1 n_max))
  /\ length (gs_og_nodes s)
     = length (filter (fun n => mem n (nodup Z.eq_dec n_blocks))
                      (py_range 1 n_max)).
Proof.
  intros Hne Hmax Hn Hf E. unfold generate_og_run in E. rewrite Hmax in E.
  simpl bind in E.
  apply bind_return in E. destruct E as [og1 [E0 E]].
  apply bind_return in E. destruct E as [s1 [E1 E]].
  rewrite enumerate_cycle_steps in E1 by (auto; lia).
  apply gen_steps_spec in E1. simpl in E1.
  destruct E1 as [ext [Hc [Hs [Ho [Hh [L1 L2]]]]]]. subst ext.
  assert (Lc : length (zseq 1 (Z.to_nat (n_max - 1)))
               = length (cycle_take (Z.to_nat (n_max - 1)) og_blocks og_blocks)).
  { rewrite zseq_length, cycle_take_length; auto. }
  rewrite map_fst_combine in Hs, L1, L2 by exact Lc.
  assert (K : gs_calls s = gs_calls s1 /\ gs_og_nodes s = gs_og_nodes s1
              /\ length (gs_og_lst s) = length (gs_og_lst s1)).
  { destruct caps as [[| cap caps] |]; try (injection E as <-; auto).
    apply bind_return in E. destruct E as [r [Er E]]. injection E as <-.
    simpl. repeat split. eapply truncate_all_length; exact Er. }
  destruct K as [K1 [K2 K3]]. rewrite K1, K2, K3.
  unfold py_range.
  repeat split; auto.
  - rewrite Ho. apply map_snd_combine. exact Lc.
  - intros -> c Hc. simpl in E0.
    apply bind_return in E0. destruct E0 as [og [Eog E0]]. injection E0 as <-.
    simpl in Hh. rewrite (Hh c Hc).
    unfold py_index in Eog. destruct og_blocks as [| b bs]; [congruence |].
    simpl in *. congruence.
Qed.

(** In deterministic mode the call returns. *)
Lemma run_det_returns fuel g0 og_blocks n_blocks n_max mnm caps seed :
  og_blocks <> [] ->
  py_max n_blocks = Return n_max ->
  1 <= n_max ->
  (Z.to_nat n_max <= fuel)%nat ->
  (forall a b m, exists r, compose a b m = Return r) ->
  exists s, run fuel g0 og_blocks n_blocks mnm caps false seed = Return s.
Proof.
  intros Hne Hmax Hn Hf Htot. unfold generate_og_run. rewrite Hmax.
  destruct og_blocks as [| b bs] eqn:Eb; [congruence |]. rewrite <- Eb in *.
  simpl bind. replace (py_index og_blocks 0) with (Return b) by (rewrite Eb; reflexivity).
  simpl bind.
  rewrite enumerate_cycle_steps by (auto; lia).
  match goal with
  | |- context [for_each ?l ?f ?s0] =>
    destruct (for_each_total (fun _ : gen_state rng => True) l f) with (s := s0)
      as [s1 [E1 _]]; [| exact I | rewrite E1]
  end.
  - intros x t _ _. destruct (gen_body_det mnm (nodup Z.eq_dec n_blocks)
                                           (fst x) (snd x) t Htot) as [t' Et].
    exists t'. split; [exact Et | exact I].
  - simpl bind. destruct caps as [[| cap caps] |]; try (eexists; reflexivity).
    destruct (truncate_all_det (gs_og_lst s1) (cap :: caps)) as [r [Er _]].
    rewrite Er. simpl. eexists; reflexivity.
Qed.

(** C10.  In deterministic mode the running graph starts as
    [og_blocks[0]] and the cycle of next blocks starts at [og_blocks[0]]
    too: the call of the merge primitive at step [k] (the one at position
    [k - 1] of the log) has [og_blocks[(k - 1) mod len(og_blocks)]] as its
    right operand, and the first call merges the first block with the first
    block. *)
Theorem generate_og_block_of_step
  fuel g0 og_blocks n_blocks n_max mnm caps seed :
  og_blocks <> [] ->
  py_max n_blocks = Return n_max ->
  1 <= n_max ->
  (Z.to_nat n_max <= fuel)%nat ->
  (forall a b m, exists r, compose a b m = Return r) ->
  exists s,
    run fuel g0 og_blocks n_blocks mnm caps false seed = Return s
    /\ length (gs_calls s) = Z.to_nat (n_max - 1)
    /\ (forall i c,
          nth_error (gs_calls s) i = Some c ->
          call_step c = Z.of_nat i + 1
          /\ nth_error og_blocks (i mod length og_blocks) = Some (call_other c))
    /\ (forall c,
          nth_error (gs_calls s) 0 = Some c ->
          nth_error og_blocks 0 = Some (call_self c)
          /\ nth_error og_blocks 0 = Some (call_other c)).
Proof.
  intros Hne Hmax Hn Hf Htot.
  destruct (run_det_returns fuel g0 _ _ _ mnm caps seed Hne Hmax Hn Hf Htot)
    as [s E].
  exists s. split; [exact E |].
  destruct (run_spec _ _ _ _ _ _ _ _ _ _ Hne Hmax Hn Hf E)
    as [Hs [Ho [Hh _]]].
  assert (L : length (gs_calls s) = Z.to_nat (n_max - 1)).
  { rewrite <- (length_map call_step), Hs. apply zseq_length. }
  assert (Hlen : (0 < length og_blocks)%nat).
  { destruct og_blocks; [congruence | simpl; lia]. }
  assert (Hi : forall i c, nth_error (gs_calls s) i = Some c ->
               call_step c = Z.of_nat i + 1
               /\ nth_error og_blocks (i mod length og_blocks)
                  = Some (call_other c)).
  { intros i c Hc.
    assert (Hlt : (i < Z.to_nat (n_max - 1))%nat).
    { rewrite <- L. apply nth_error_Some. congruence. }
    split.
    - assert (H1 : nth_error (map call_step (gs_calls s)) i = Some (call_step c)).
      { rewrite nth_error_map, Hc. reflexivity. }
      rewrite Hs in H1. unfold py_range in H1.
      rewrite zseq_nth in H1 by lia.
      assert (call_step c = 1 + Z.of_nat i) by congruence. lia.
    - assert (H2 : nth_error (map call_other (gs_calls s)) i = Some (call_other c)).
      { rewrite nth_error_map, Hc. reflexivity. }
      rewrite Ho in H2. rewrite <- H2.
      symmetry. apply (cycle_take_nth og_blocks Hne _ 0%nat i); lia. }
  split; [exact L | split; [exact Hi |]].
  intros c H. split.
  - assert (H0 : hd_error (gs_calls s) = Some c).
    { destruct (gs_calls s); simpl in *; congruence. }
    specialize (Hh eq_refl c H0).
    destruct og_blocks; simpl in *; [congruence | exact Hh].
  - destruct (Hi 0%nat c H) as [_ H2].
    rewrite Nat.Div0.mod_0_l in H2. exact H2.
Qed.

(** *** Determinism *)

Lemma gen_body_det_rng mnm set n og2 s g :
  body false mnm set n og2 (with_rng g s)
  = map_outcome (with_rng g) (body false mnm set n og2 s).
Proof.
  unfold gen_body. simpl gs_og1. simpl gs_rng.
  destruct (get_mapping_det (gs_og1 s) og2 mnm) as [m E]. rewrite !E. simpl.
  destruct (og_compose compose (gs_og1 s) og2 m); simpl; auto.
  destruct (mem n set); reflexivity.
Qed.

Lemma enumerate_det_rng mnm set saved stop g : forall fuel rest n s,
  enumerate_cycle fuel saved rest n stop (body false mnm set) (with_rng g s)
  = map_outcome (with_rng g)
      (enumerate_cycle fuel saved rest n stop (body false mnm set) s).
Proof.
  induction fuel as [| fuel IH]; intros rest n s; simpl; [reflexivity |].
  destruct (cycle_next saved rest) as [[x rest'] |]; [| reflexivity].
  destruct (n =? stop); [reflexivity |].
  rewrite gen_body_det_rng.
  destruct (body false mnm set n x s) as [s1 | e |]; simpl; auto.
Qed.

(** C9.  Two calls with the same arguments return the same result, whatever
    the state of the process-wide random generator when each call starts:
    in stochastic mode the generator is reseeded from [seed] before its
    first use, in deterministic mode it is never consulted.  In
    deterministic mode the result does not depend on [seed] either. *)
Theorem generate_og_deterministic
  fuel g0 g0' og_blocks n_blocks mnm caps seed seed' :
  generate_og compose rng random_seed randbelow randfloor
              fuel g0 og_blocks n_blocks mnm caps true seed
  = generate_og compose rng random_seed randbelow randfloor
                fuel g0' og_blocks n_blocks mnm caps true seed
  /\ generate_og compose rng random_seed randbelow randfloor
                 fuel g0 og_blocks n_blocks mnm caps false seed
     = generate_og compose rng random_seed randbelow randfloor
                   fuel g0' og_blocks n_blocks mnm caps false seed'.
Proof.
  split; [reflexivity |].
  unfold generate_og, generate_og_run.
  destruct (py_max n_blocks) as [n_max | e |]; simpl; auto.
  destruct (py_index og_blocks 0) as [b | e |]; simpl; auto.
  change (mkGenState rng b [] [] g0 [])
    with (with_rng g0 (mkGenState rng b [] [] g0' [])).
  rewrite enumerate_det_rng.
  destruct (enumerate_cycle _ _ _ _ _ _ _) as [s1 | e |]; simpl; auto.
  destruct caps as [[| cap caps] |]; simpl; auto.
  destruct (truncate_all_det (gs_og_lst s1) (cap :: caps)) as [r [Er _]].
  rewrite !Er. reflexivity.
Qed.

(** *** Series composition *)

(** C8.  With [n = 0] the loop body is never run: the function returns the
    block it was given, with its nodes, edges, inputs, outputs and
    measurements, and the merge primitive is not called. *)
Theorem get_series_composition_zero og :
  get_series_composition compose og 0 = Return og
  /\ get_series_composition_run compose og 0 = Return (og, []).
Proof. split; reflexivity. Qed.

Lemma series_loop_spec og : forall m,
  (forall a b mp, exists r, compose a b mp = Return r) ->
  exists r,
    for_each (zseq 0 m) (series_body compose og) (og, []) = Return r
    /\ length (snd r) = m
    /\ forall k c,
         nth_error (snd r) k = Some c ->
         exists rk,
           for_each (zseq 0 k) (series_body compose og) (og, []) = Return rk
           /\ call_step c = Z.of_nat k + 1
           /\ call_self c = fst rk
           /\ call_other c = og
           /\ call_mapping c
              = dict_of_pairs (combine (inputs og) (outputs (fst rk))).
Proof.
  intros m Htot. induction m as [| m IH].
  - exists (og, []). simpl. repeat split; auto.
    intros [| k] c Hc; discriminate.
  - destruct IH as [[ogm logm] [E [L N]]]. simpl in L, N.
    rewrite zseq_snoc, for_each_app, E. simpl.
    unfold series_body at 1. simpl fst. simpl snd. unfold og_compose.
    match goal with
    | |- context [compose ogm og ?m] => destruct (Htot ogm og m) as [r Ec]
    end.
    rewrite Ec.
    simpl. eexists. split; [reflexivity |]. simpl.
    split; [rewrite length_app; simpl; lia |].
    intros k c Hc.
    destruct (Nat.lt_ge_cases k m) as [Hlt | Hge].
    + rewrite nth_error_app1 in Hc by lia. apply N; exact Hc.
    + rewrite nth_error_app2 in Hc by lia.
      destruct (k - length logm)%nat as [| j] eqn:Ej; simpl in Hc;
        [| destruct j; discriminate].
      assert (k = m) by lia. subst k.
      injection Hc as <-. exists (ogm, logm). simpl.
      repeat split; auto.
Qed.

(** C5, as the code has it.  The name [og] is rebound by each iteration, so
    the mapping of iteration [k + 1] pairs the inputs of the copy of the
    block with the outputs of the running graph, the result of the first
    [k] iterations; only in the first iteration is that the block itself.
    The right operand is always the copy of the block. *)
Theorem series_mapping_uses_running_graph og n :
  (forall a b m, exists r, compose a b m = Return r) ->
  exists r,
    get_series_composition_run compose og n = Return r
    /\ length (snd r) = Z.to_nat n
    /\ forall k c,
         nth_error (snd r) k = Some c ->
         exists og_k,
           get_series_composition compose og (Z.of_nat k) = Return og_k
           /\ call_step c = Z.of_nat k + 1
           /\ call_self c = og_k
           /\ call_other c = og
           /\ call_mapping c
              = dict_of_pairs (combine (inputs og) (outputs og_k)).
Proof.
  intros Htot.
  destruct (series_loop_spec og (Z.to_nat n) Htot) as [r [E [L N]]].
  exists r. unfold get_series_composition_run, py_range.
  rewrite Z.sub_0_r. repeat split; auto.
  intros k c Hc. destruct (N k c Hc) as [rk [Ek H]].
  exists (fst rk). unfold get_series_composition, get_series_composition_run,
    py_range.
  rewrite Z.sub_0_r, Nat2Z.id, Ek. simpl. auto.
Qed.

(** *** Grid composition: argument errors *)

Lemma og_compose_value_error a b m msg :
  og_compose compose a b m = Raise (ValueError msg) -> raised_by_compose compose msg.
Proof.
  unfold og_compose. intros E. exists a, b, m.
  destruct (compose a b m) as [r | e |]; simpl in E; [discriminate | | discriminate].
  injection E as ->. reflexivity.
Qed.

Lemma add_l1_value_error l1 og msg :
  add_l1 compose l1 og = Raise (ValueError msg) -> raised_by_compose compose msg.
Proof. unfold add_l1. apply og_compose_value_error. Qed.

Lemma add_l0_value_error l0 og msg :
  add_l0 compose l0 og = Raise (ValueError msg) -> raised_by_compose compose msg.
Proof.
  unfold add_l0. revert msg. apply bind_value_error.
  - intros msg. destruct (py_len (outputs og) =? 3); [discriminate |].
    intros E. exfalso. revert msg E.
    apply (bind_value_error (fun _ => False)).
    + intros msg E. exact (py_index_no_value_error _ _ _ E).
    + intros x msg1 _. revert msg1. apply (bind_value_error (fun _ => False)).
      * intros msg E. exact (py_index_no_value_error _ _ _ E).
      * intros y msg' Ey. unfold py_index in Ey.
        destruct (nth_error (outputs og ++ [x]) 1) as [y' |] eqn:En;
          [| discriminate].
        injection Ey as ->. apply nth_error_In in En.
        destruct (py_remove_In _ _ En) as [r ->]. discriminate.
  - intros outs msg' _. apply og_compose_value_error.
Qed.

Lemma get_layers_value_error og n_rows msg :
  get_layers compose og n_rows = Raise (ValueError msg) -> raised_by_compose compose msg.
Proof.
  unfold get_layers. apply for_each_value_error.
  intros n s. unfold layers_body.
  apply bind_value_error; [intros msg'; apply og_compose_value_error |].
  intros og0 msg'' _. destruct (n <? n_rows - 1); [| discriminate].
  revert msg''. apply bind_value_error;
    [intros msg'; apply og_compose_value_error |].
  intros; discriminate.
Qed.

(** C7, as the code has it.  [get_grid_composition] raises its own
    [ValueError] when [n_layers < 1], with the message that names the layers,
    and when [n_layers >= 1] and [n_rows < 1], with the message that names
    the rows; both are raised before any composition, whatever the merge
    primitive does.  When both bounds hold the function raises no error of its
    own, but it does not catch those of the merge primitive: a [ValueError]
    that leaves it is one a call of the primitive raised, with the message the
    primitive gave it. *)
Theorem get_grid_composition_invalid_argument fuel og n_rows n_layers :
  (n_layers < 1 ->
   get_grid_composition compose fuel og n_rows n_layers
   = Raise (ValueError layers_msg))
  /\ (1 <= n_layers -> n_rows < 1 ->
      get_grid_composition compose fuel og n_rows n_layers
      = Raise (ValueError rows_msg))
  /\ (1 <= n_layers -> 1 <= n_rows ->
      forall msg,
        get_grid_composition compose fuel og n_rows n_layers
        = Raise (ValueError msg) ->
        raised_by_compose compose msg).
Proof.
  unfold get_grid_composition.
  destruct (Z.ltb_spec n_layers 1) as [Hl | Hl].
  - split; [reflexivity | split; intros; lia].
  - destruct (Z.ltb_spec n_rows 1) as [Hr | Hr].
    + split; [intros; lia | split; [reflexivity | intros; lia]].
    + split; [intros; lia | split; [intros; lia |]].
      intros _ _. apply bind_value_error.
      * intros msg. apply get_layers_value_error.
      * intros ls msg _. apply enumerate_cycle_value_error with (saved := [add_l1 compose (snd ls); add_l0 compose (fst ls)]).
        -- intros n x s msg' [<- | [<- | []]];
             [apply add_l1_value_error | apply add_l0_value_error].
        -- apply incl_refl.
Qed.

End GeneratorProperties.


(** ** The merge model *)

Section MergeModel.

Variables (self other : OpenGraph) (mapping : dict Z).

Local Abbreviation mc := (mapping_complete self other mapping).
Local Abbreviation shift := (compose_shift self mapping).
Local Abbreviation unmapped := (unmapped_nodes other mapping).

Lemma shift_above_nodes v : In v (nodes (inside self)) -> v < shift.
Proof.
  intros H. unfold compose_shift. apply fresh_label_gt.
  apply in_or_app; left; exact H.
Qed.

Lemma shift_above_values u : In u (dict_values mapping) -> u < shift.
Proof.
  intros H. unfold compose_shift. apply fresh_label_gt.
  apply in_or_app; right; exact H.
Qed.

Lemma unmapped_In v :
  In v unmapped <-> In v (nodes (inside other)) /\ ~ In v (dict_keys mapping).
Proof.
  unfold unmapped_nodes. rewrite zsort_In, filter_In, negb_true_iff, mem_false.
  tauto.
Qed.

Lemma mapping_complete_values :
  dict_values mc = dict_values mapping ++ zseq shift (length unmapped).
Proof.
  unfold mapping_complete, dict_values. rewrite map_app. f_equal.
  apply map_snd_combine. rewrite zseq_length. reflexivity.
Qed.

(** A key of the mapping is relabelled as the mapping says. *)
Lemma relabel_key k :
  In k (dict_keys mapping) ->
  In (relabel mc k) (dict_values mapping) /\ In (k, relabel mc k) mc.
Proof.
  intros H. destruct (dict_get_Some mapping k H) as [u E].
  assert (Er : relabel mc k = u).
  { unfold relabel, mapping_complete. rewrite dict_get_app, E. reflexivity. }
  rewrite Er. apply dict_get_In in E. split.
  - apply (in_map snd) in E. exact E.
  - unfold mapping_complete. apply in_or_app; left; exact E.
Qed.

(** A node the mapping does not mention is sent to a fresh label. *)
Lemma relabel_unmapped v :
  In v (nodes (inside other)) -> ~ In v (dict_keys mapping) ->
  shift <= relabel mc v < shift + Z.of_nat (length unmapped)
  /\ In (v, relabel mc v) mc.
Proof.
  intros Hv Hk.
  assert (Hu : In v (dict_keys (combine unmapped (zseq shift (length unmapped))))).
  { unfold dict_keys. rewrite map_fst_combine by (rewrite zseq_length; reflexivity).
    apply unmapped_In. tauto. }
  destruct (dict_get_Some _ v Hu) as [u E].
  assert (Er : relabel mc v = u).
  { unfold relabel, mapping_complete.
    rewrite dict_get_app, (dict_get_None mapping v Hk), E. reflexivity. }
  rewrite Er. apply dict_get_In in E. split.
  - apply in_combine_r in E. apply zseq_In in E. exact E.
  - unfold mapping_complete. apply in_or_app; right; exact E.
Qed.

Lemma relabel_In v :
  In v (nodes (inside other)) -> In (v, relabel mc v) mc.
Proof.
  intros Hv. destruct (in_dec Z.eq_dec v (dict_keys mapping)) as [Hk | Hk].
  - apply relabel_key; exact Hk.
  - apply relabel_unmapped; assumption.
Qed.

(** Distinct nodes of [other] get distinct labels when the mapping is
    one-to-one. *)
Lemma relabel_inj v w :
  NoDup (dict_values mapping) ->
  In v (nodes (inside other)) -> In w (nodes (inside other)) ->
  relabel mc v = relabel mc w -> v = w.
Proof.
  intros Hnd Hv Hw E.
  apply (dict_values_inj mc v w (relabel mc v)).
  - rewrite mapping_complete_values. apply NoDup_app; [exact Hnd | apply zseq_NoDup |].
    intros x Hx Hz. apply shift_above_values in Hx. apply zseq_In in Hz. lia.
  - apply relabel_In; exact Hv.
  - rewrite E. apply relabel_In; exact Hw.
Qed.

Lemma relabel_NoDup l :
  NoDup (dict_values mapping) ->
  incl l (nodes (inside other)) -> NoDup l -> NoDup (map (relabel mc) l).
Proof.
  intros Hnd Hi Hl. apply NoDup_map_NoDup_ForallPairs; [| exact Hl].
  intros v w Hv Hw E. apply relabel_inj; auto.
Qed.

(** Only nodes of [self] can be merged. *)
Lemma is_merged_outside x :
  ~ In x (nodes (inside self)) -> is_merged self mc x = false.
Proof.
  intros H. unfold is_merged. apply mem_false in H. rewrite H.
  apply andb_false_r.
Qed.

Lemma is_merged_fresh x : shift <= x -> is_merged self mc x = false.
Proof.
  intros H. apply is_merged_outside. intros Hx.
  apply shift_above_nodes in Hx. lia.
Qed.

(** A node of [self] is merged exactly when it is a value of the mapping. *)
Lemma is_merged_self x :
  In x (nodes (inside self)) ->
  is_merged self mc x = mem x (dict_values mapping).
Proof.
  intros H. unfold is_merged. rewrite mapping_complete_values, mem_app.
  assert (E1 : mem x (nodes (inside self)) = true) by (apply mem_true; exact H).
  assert (E2 : mem x (zseq shift (length unmapped)) = false).
  { apply mem_false. intros Hz. apply zseq_In in Hz.
    apply shift_above_nodes in H. lia. }
  rewrite E1, E2, orb_false_r, andb_true_r. reflexivity.
Qed.

End MergeModel.

Lemma NoDup_app_disjoint {A : Type} (a b : list A) x :
  NoDup (a ++ b) -> In x a -> In x b -> False.
Proof.
  induction a as [| y a IH]; simpl; intros Hnd Ha Hb; [exact Ha |].
  inversion Hnd as [| ? ? Hnot Hnd']; subst.
  destruct Ha as [-> | Ha].
  - apply Hnot. apply in_or_app; right; exact Hb.
  - apply IH; assumption.
Qed.

Lemma firstn_skipn_disjoint {A : Type} (n : nat) (l : list A) x :
  NoDup l -> In x (firstn n l) -> In x (skipn n l) -> False.
Proof.
  intros Hnd. rewrite <- (firstn_skipn n l) in Hnd.
  apply NoDup_app_disjoint. exact Hnd.
Qed.

(** *** Adding a layer: the inputs of [layer] are identified, in order, with
    the outputs [vs] of [og] *)

Section LayerMerge.

Variables (og layer : OpenGraph) (vs : list Z).
Hypothesis og_ok : ports_ok og.
Hypothesis layer_ok : ports_ok layer.
Hypothesis vs_NoDup : NoDup vs.
Hypothesis vs_outputs : incl vs (outputs og).

Local Abbreviation m := (combine (inputs layer) vs).
Local Abbreviation mc := (mapping_complete og layer m).

Lemma layer_mapping_dict : dict_of_pairs m = m.
Proof.
  apply dict_of_pairs_NoDup. rewrite combine_keys.
  apply NoDup_firstn, layer_ok.
Qed.

Lemma layer_values_NoDup : NoDup (dict_values m).
Proof. unfold dict_values. rewrite combine_values. apply NoDup_firstn, vs_NoDup. Qed.

Lemma layer_values_outputs u : In u (dict_values m) -> In u (outputs og).
Proof.
  unfold dict_values. rewrite combine_values. intros Hu.
  apply vs_outputs. eapply In_firstn; exact Hu.
Qed.

Lemma layer_key_merged v :
  In v (firstn (length vs) (inputs layer)) ->
  is_merged og mc (relabel mc v) = true.
Proof.
  intros Hv.
  assert (Hk : In v (dict_keys m)) by (unfold dict_keys; rewrite combine_keys; exact Hv).
  destruct (relabel_key og layer m v Hk) as [Hu _].
  rewrite is_merged_self.
  - apply mem_true. exact Hu.
  - apply (po_outputs_in og og_ok). apply layer_values_outputs. exact Hu.
Qed.

Lemma layer_rest_fresh v :
  In v (skipn (length vs) (inputs layer)) ->
  compose_shift og m <= relabel mc v.
Proof.
  intros Hv. apply relabel_unmapped.
  - apply (po_inputs_in layer layer_ok). eapply In_skipn; exact Hv.
  - unfold dict_keys. rewrite combine_keys. intros Hk.
    apply (firstn_skipn_disjoint (length vs) (inputs layer) v);
      [apply layer_ok | exact Hk | exact Hv].
Qed.

Lemma layer_output_fresh w :
  In w (outputs layer) -> compose_shift og m <= relabel mc w.
Proof.
  intros Hw. apply relabel_unmapped.
  - apply (po_outputs_in layer layer_ok). exact Hw.
  - unfold dict_keys. rewrite combine_keys. intros Hk.
    apply In_firstn in Hk. exact (po_disjoint layer layer_ok w Hk Hw).
Qed.

Lemma layer_inputs :
  inputs (fst (compose_model og layer m))
  = inputs og ++ map (relabel mc) (skipn (length vs) (inputs layer)).
Proof.
  unfold compose_model. cbn [fst inputs]. unfold merge_ports. f_equal.
  - apply filter_all. intros x Hx. apply orb_true_iff. left.
    apply negb_true_iff.
    rewrite is_merged_self by (apply (po_inputs_in og og_ok); exact Hx).
    apply mem_false. intros Hu. apply layer_values_outputs in Hu.
    exact (po_disjoint og og_ok x Hx Hu).
  - assert (Hr : forall y, In y (map (relabel mc) (skipn (length vs) (inputs layer))) ->
                 negb (is_merged og mc y) = true).
    { intros y Hy. apply in_map_iff in Hy. destruct Hy as [v [<- Hv]].
      apply negb_true_iff, is_merged_fresh, layer_rest_fresh. exact Hv. }
    assert (Hk : forall y, In y (map (relabel mc) (firstn (length vs) (inputs layer))) ->
                 negb (is_merged og mc y) = false).
    { intros y Hy. apply in_map_iff in Hy. destruct Hy as [v [<- Hv]].
      apply negb_false_iff, layer_key_merged. exact Hv. }
    revert Hr Hk. generalize (relabel mc) (is_merged og mc). intros r mg Hr Hk.
    rewrite <- (firstn_skipn (length vs) (inputs layer)) at 1.
    rewrite map_app, filter_app, (filter_none _ _ Hk), (filter_all _ _ Hr).
    reflexivity.
Qed.

Lemma layer_outputs :
  outputs (fst (compose_model og layer m))
  = filter (fun x => negb (mem x (dict_values m))) (outputs og)
    ++ map (relabel mc) (outputs layer).
Proof.
  unfold compose_model. cbn [fst outputs]. unfold merge_ports. f_equal.
  - apply filter_ext_in. intros x Hx.
    rewrite is_merged_self by (apply (po_outputs_in og og_ok); exact Hx).
    replace (mem x (map (relabel mc) (outputs layer))) with false;
      [apply orb_false_r |].
    symmetry. apply mem_false. intros Hy. apply in_map_iff in Hy.
    destruct Hy as [w [E Hw]]. apply layer_output_fresh in Hw.
    apply (po_outputs_in og og_ok), (shift_above_nodes og m) in Hx. lia.
  - apply filter_all. intros y Hy. apply in_map_iff in Hy.
    destruct Hy as [w [<- Hw]].
    apply negb_true_iff, is_merged_fresh, layer_output_fresh. exact Hw.
Qed.

(** The boundary invariants survive, every input of [og] stays an input, and
    the identified outputs leave the output boundary. *)
Lemma compose_layer :
  let og' := fst (compose_model og layer (dict_of_pairs m)) in
  ports_ok og'
  /\ length (inputs og')
     = (length (inputs og) + (length (inputs layer) - length vs))%nat
  /\ length (outputs og')
     = (length (outputs og) - Nat.min (length (inputs layer)) (length vs)
        + length (outputs layer))%nat.
Proof.
  rewrite layer_mapping_dict. cbv zeta.
  assert (Hnodes : forall x, In x (nodes (inside og)) -> x < compose_shift og m)
    by (apply shift_above_nodes).
  split; [constructor |].
  - simpl. apply add_nodes_NoDup, og_ok.
  - rewrite layer_inputs. apply NoDup_app; [apply og_ok | |].
    + apply relabel_NoDup; [apply layer_values_NoDup | | apply NoDup_skipn, layer_ok].
      intros v Hv. apply (po_inputs_in layer layer_ok). eapply In_skipn; exact Hv.
    + intros x Hx Hy. apply in_map_iff in Hy. destruct Hy as [v [E Hv]].
      apply layer_rest_fresh in Hv.
      apply (po_inputs_in og og_ok), Hnodes in Hx. lia.
  - rewrite layer_outputs. apply NoDup_app; [apply NoDup_filter, og_ok | |].
    + apply relabel_NoDup; [apply layer_values_NoDup | apply layer_ok | apply layer_ok].
    + intros x Hx Hy. apply filter_In in Hx. destruct Hx as [Hx _].
      apply in_map_iff in Hy. destruct Hy as [w [E Hw]].
      apply layer_output_fresh in Hw.
      apply (po_outputs_in og og_ok), Hnodes in Hx. lia.
  - rewrite layer_inputs. intros x Hx. simpl. apply add_nodes_In.
    apply in_app_or in Hx. destruct Hx as [Hx | Hx].
    + left. apply (po_inputs_in og og_ok). exact Hx.
    + right. apply in_map_iff in Hx. destruct Hx as [v [<- Hv]].
      apply in_map. apply (po_inputs_in layer layer_ok). eapply In_skipn; exact Hv.
  - rewrite layer_outputs. intros x Hx. simpl. apply add_nodes_In.
    apply in_app_or in Hx. destruct Hx as [Hx | Hx].
    + left. apply filter_In in Hx. apply (po_outputs_in og og_ok). tauto.
    + right. apply in_map_iff in Hx. destruct Hx as [w [<- Hw]].
      apply in_map. apply (po_outputs_in layer layer_ok). exact Hw.
  - rewrite layer_inputs, layer_outputs. intros x Hx Hy.
    apply in_app_or in Hx. apply in_app_or in Hy.
    destruct Hx as [Hx | Hx], Hy as [Hy | Hy].
    + apply filter_In in Hy. exact (po_disjoint og og_ok x Hx (proj1 Hy)).
    + apply in_map_iff in Hy. destruct Hy as [w [E Hw]].
      apply layer_output_fresh in Hw.
      apply (po_inputs_in og og_ok), Hnodes in Hx. lia.
    + apply filter_In in Hy. destruct Hy as [Hy _].
      apply in_map_iff in Hx. destruct Hx as [v [E Hv]].
      apply layer_rest_fresh in Hv.
      apply (po_outputs_in og og_ok), Hnodes in Hy. lia.
    + apply in_map_iff in Hx. destruct Hx as [v [Ev Hv]].
      apply in_map_iff in Hy. destruct Hy as [w [Ew Hw]].
      apply In_skipn in Hv.
      assert (v = w).
      { apply (relabel_inj og layer m); [apply layer_values_NoDup | | | congruence].
        - apply (po_inputs_in layer layer_ok). exact Hv.
        - apply (po_outputs_in layer layer_ok). exact Hw. }
      subst w. exact (po_disjoint layer layer_ok v Hv Hw).
  - split.
    + rewrite layer_inputs, length_app, length_map, length_skipn. reflexivity.
    + rewrite layer_outputs, length_app, length_map.
      rewrite filter_out_length;
        [| apply og_ok | apply layer_values_NoDup
         | intros u Hu; apply layer_values_outputs; exact Hu].
      unfold dict_values. rewrite combine_values, length_firstn. reflexivity.
Qed.

End LayerMerge.

(** *** Adding a block beside the others: the boundary of [aux] is sent to
    the labels from [order] on, which no node of [og] carries *)

Section ParallelMerge.

Variables (og aux : OpenGraph).
Hypothesis og_ok : ports_ok og.
Hypothesis og_bounded : bounded_ids og.
Hypothesis aux_ok : ports_ok aux.

Local Abbreviation ports := (inputs aux ++ outputs aux).
Local Abbreviation m := (combine ports (zseq (order (inside og)) (length ports))).
Local Abbreviation mc := (mapping_complete og aux m).

Lemma par_ports_NoDup : NoDup ports.
Proof.
  apply NoDup_app; [apply (po_inputs aux aux_ok) | apply (po_outputs aux aux_ok) |].
  apply (po_disjoint aux aux_ok).
Qed.

Lemma par_ports_nodes : incl ports (nodes (inside aux)).
Proof.
  intros x Hx. apply in_app_or in Hx. destruct Hx as [Hx | Hx].
  - apply (po_inputs_in aux aux_ok). exact Hx.
  - apply (po_outputs_in aux aux_ok). exact Hx.
Qed.

Lemma par_keys : dict_keys m = ports.
Proof. unfold dict_keys. apply map_fst_combine. rewrite zseq_length. reflexivity. Qed.

Lemma par_values : dict_values m = zseq (order (inside og)) (length ports).
Proof. unfold dict_values. apply map_snd_combine. rewrite zseq_length. reflexivity. Qed.

Lemma par_mapping_dict : dict_of_pairs m = m.
Proof.
  apply dict_of_pairs_NoDup. fold (dict_keys m). rewrite par_keys.
  apply par_ports_NoDup.
Qed.

Lemma par_shift_le :
  compose_shift og m <= order (inside og) + Z.of_nat (length ports).
Proof.
  unfold compose_shift. apply fresh_label_le.
  - unfold order, py_len. lia.
  - intros x Hx. apply in_app_or in Hx. destruct Hx as [Hx | Hx].
    + apply og_bounded in Hx. lia.
    + rewrite par_values in Hx. apply zseq_In in Hx. lia.
Qed.

Lemma par_unmapped_length :
  length (unmapped_nodes aux m) = (length (nodes (inside aux)) - length ports)%nat.
Proof.
  unfold unmapped_nodes. rewrite zsort_length, par_keys.
  apply filter_out_length;
    [apply (po_nodes aux aux_ok) | apply par_ports_NoDup | apply par_ports_nodes].
Qed.

(** Where the nodes of [aux] go: to labels no node of [og] carries, below the
    new order. *)
Lemma par_relabel_range v :
  In v (nodes (inside aux)) ->
  relabel mc v < order (inside og) + Z.of_nat (length (nodes (inside aux))).
Proof.
  intros Hv.
  assert (Lp : (length ports <= length (nodes (inside aux)))%nat).
  { apply NoDup_incl_length; [apply par_ports_NoDup | apply par_ports_nodes]. }
  destruct (in_dec Z.eq_dec v (dict_keys m)) as [Hk | Hk].
  - destruct (relabel_key og aux m v Hk) as [Hu _].
    rewrite par_values in Hu. apply zseq_In in Hu. lia.
  - destruct (relabel_unmapped og aux m v Hv Hk) as [Hu _].
    rewrite par_unmapped_length in Hu.
    assert (S1 := par_shift_le). lia.
Qed.

Lemma par_relabel_outside v :
  In v (nodes (inside aux)) -> ~ In (relabel mc v) (nodes (inside og)).
Proof.
  intros Hv Hin.
  destruct (in_dec Z.eq_dec v (dict_keys m)) as [Hk | Hk].
  - destruct (relabel_key og aux m v Hk) as [Hu _].
    rewrite par_values in Hu. apply zseq_In in Hu.
    apply og_bounded in Hin. lia.
  - destruct (relabel_unmapped og aux m v Hv Hk) as [Hu _].
    apply (shift_above_nodes og m) in Hin. lia.
Qed.

Lemma par_not_merged_self x :
  In x (nodes (inside og)) -> is_merged og mc x = false.
Proof.
  intros Hx. rewrite is_merged_self by exact Hx. apply mem_false.
  rewrite par_values. intros Hz. apply zseq_In in Hz.
  apply og_bounded in Hx. lia.
Qed.

Lemma par_merge_ports p1 p2 :
  incl p1 (nodes (inside og)) -> incl p2 (nodes (inside aux)) ->
  merge_ports og mc p1 p2 = p1 ++ map (relabel mc) p2.
Proof.
  intros H1 H2. unfold merge_ports. f_equal; apply filter_all.
  - intros x Hx. rewrite par_not_merged_self by (apply H1; exact Hx). reflexivity.
  - intros y Hy. apply in_map_iff in Hy. destruct Hy as [v [<- Hv]].
    apply negb_true_iff, is_merged_outside, par_relabel_outside, H2. exact Hv.
Qed.

Lemma par_nodes :
  nodes (inside (fst (compose_model og aux m)))
  = nodes (inside og) ++ map (relabel mc) (nodes (inside aux)).
Proof.
  unfold compose_model. cbn [fst inside nodes]. apply add_nodes_disjoint.
  - apply relabel_NoDup;
      [rewrite par_values; apply zseq_NoDup | apply incl_refl
       | apply (po_nodes aux aux_ok)].
  - intros y Hy. apply in_map_iff in Hy. destruct Hy as [v [<- Hv]].
    apply par_relabel_outside. exact Hv.
Qed.

(** One more block beside the others: the boundary invariants survive, the
    identifiers stay below the order, and the boundaries grow by those of the
    block. *)
Lemma compose_parallel :
  let og' := par_step aux og in
  ports_ok og'
  /\ bounded_ids og'
  /\ length (inputs og') = (length (inputs og) + length (inputs aux))%nat
  /\ length (outputs og') = (length (outputs og) + length (outputs aux))%nat.
Proof.
  unfold par_step. rewrite par_mapping_dict. cbv zeta.
  assert (Ei : inputs (fst (compose_model og aux m))
               = inputs og ++ map (relabel mc) (inputs aux)).
  { unfold compose_model. cbn [fst inputs].
    apply par_merge_ports; [apply (po_inputs_in og og_ok) | apply (po_inputs_in aux aux_ok)]. }
  assert (Eo : outputs (fst (compose_model og aux m))
               = outputs og ++ map (relabel mc) (outputs aux)).
  { unfold compose_model. cbn [fst outputs].
    apply par_merge_ports; [apply (po_outputs_in og og_ok) | apply (po_outputs_in aux aux_ok)]. }
  assert (Hv : NoDup (dict_values m)) by (rewrite par_values; apply zseq_NoDup).
  split; [constructor | split; [| split]].
  - rewrite par_nodes. apply NoDup_app; [apply (po_nodes og og_ok) | |].
    + apply relabel_NoDup; [exact Hv | apply incl_refl | apply (po_nodes aux aux_ok)].
    + intros x Hx Hy. apply in_map_iff in Hy. destruct Hy as [v [<- Hy]].
      exact (par_relabel_outside v Hy Hx).
  - rewrite Ei. apply NoDup_app; [apply (po_inputs og og_ok) | |].
    + apply relabel_NoDup;
        [exact Hv | apply (po_inputs_in aux aux_ok) | apply (po_inputs aux aux_ok)].
    + intros x Hx Hy. apply in_map_iff in Hy. destruct Hy as [v [<- Hy]].
      apply (po_inputs_in aux aux_ok) in Hy. apply (po_inputs_in og og_ok) in Hx.
      exact (par_relabel_outside v Hy Hx).
  - rewrite Eo. apply NoDup_app; [apply (po_outputs og og_ok) | |].
    + apply relabel_NoDup;
        [exact Hv | apply (po_outputs_in aux aux_ok) | apply (po_outputs aux aux_ok)].
    + intros x Hx Hy. apply in_map_iff in Hy. destruct Hy as [v [<- Hy]].
      apply (po_outputs_in aux aux_ok) in Hy. apply (po_outputs_in og og_ok) in Hx.
      exact (par_relabel_outside v Hy Hx).
  - rewrite Ei, par_nodes. intros x Hx. apply in_or_app.
    apply in_app_or in Hx. destruct Hx as [Hx | Hx].
    + left. apply (po_inputs_in og og_ok). exact Hx.
    + right. apply in_map_iff in Hx. destruct Hx as [v [<- Hx]].
      apply in_map, (po_inputs_in aux aux_ok). exact Hx.
  - rewrite Eo, par_nodes. intros x Hx. apply in_or_app.
    apply in_app_or in Hx. destruct Hx as [Hx | Hx].
    + left. apply (po_outputs_in og og_ok). exact Hx.
    + right. apply in_map_iff in Hx. destruct Hx as [v [<- Hx]].
      apply in_map, (po_outputs_in aux aux_ok). exact Hx.
  - rewrite Ei, Eo. intros x Hx Hy.
    apply in_app_or in Hx. apply in_app_or in Hy.
    destruct Hx as [Hx | Hx], Hy as [Hy | Hy].
    + exact (po_disjoint og og_ok x Hx Hy).
    + apply in_map_iff in Hy. destruct Hy as [w [<- Hw]].
      apply (po_outputs_in aux aux_ok) in Hw. apply (po_inputs_in og og_ok) in Hx.
      exact (par_relabel_outside w Hw Hx).
    + apply in_map_iff in Hx. destruct Hx as [v [<- Hv']].
      apply (po_inputs_in aux aux_ok) in Hv'. apply (po_outputs_in og og_ok) in Hy.
      exact (par_relabel_outside v Hv' Hy).
    + apply in_map_iff in Hx. destruct Hx as [v [Ev Hv']].
      apply in_map_iff in Hy. destruct Hy as [w [Ew Hw]].
      assert (v = w).
      { apply (relabel_inj og aux m); [exact Hv | | | congruence].
        - apply (po_inputs_in aux aux_ok). exact Hv'.
        - apply (po_outputs_in aux aux_ok). exact Hw. }
      subst w. exact (po_disjoint aux aux_ok v Hv' Hw).
  - intros x Hx.
    assert (El : length (nodes (inside (fst (compose_model og aux m))))
                 = (length (nodes (inside og)) + length (nodes (inside aux)))%nat).
    { rewrite par_nodes, length_app, length_map. reflexivity. }
    rewrite par_nodes in Hx.
    apply in_app_or in Hx. destruct Hx as [Hx | Hx].
    + apply og_bounded in Hx. unfold order, py_len in *. lia.
    + apply in_map_iff in Hx. destruct Hx as [v [<- Hx]].
      apply par_relabel_range in Hx. unfold order, py_len in *. lia.
  - rewrite Ei, length_app, length_map. reflexivity.
  - rewrite Eo, length_app, length_map. reflexivity.
Qed.

End ParallelMerge.

(** ** The grid on the merge model *)

Lemma og_compose_graphix a b m :
  og_compose compose_graphix a b m = Return (fst (compose_model a b m)).
Proof. reflexivity. Qed.




(** While [og1] is extended too, the two layers of [get_layers] are the same
    graph. *)
Lemma layers_lockstep aux n_rows l : forall g,
  (forall n, In n l -> n < n_rows - 1) ->
  for_each l (layers_body compose_graphix aux n_rows) (g, g)
  = Return (Nat.iter (length l) (par_step aux) g,
            Nat.iter (length l) (par_step aux) g).
Proof.
  induction l as [| n l IH]; intros g Hl; [reflexivity |].
  cbn [for_each]. unfold layers_body at 1. cbv zeta. cbn [fst snd].
  rewrite !(og_compose_graphix g aux). cbn [bind].
  destruct (Z.ltb_spec n (n_rows - 1)) as [_ | Hge];
    [| specialize (Hl n (or_introl eq_refl)); lia].
  cbn [bind].
  fold (par_step aux g). rewrite IH by (intros k Hk; apply Hl; right; exact Hk).
  cbn [length]. rewrite !Nat.iter_succ_r. reflexivity.
Qed.

(** Layer 0 has [n_rows] blocks and layer 1 one block less, unless there is
    a single row. *)
Lemma get_layers_graphix og n_rows :
  1 <= n_rows ->
  get_layers compose_graphix og n_rows
  = Return (Nat.iter (Z.to_nat (n_rows - 1)) (par_step og) og,
            Nat.iter (Z.to_nat (n_rows - 2)) (par_step og) og).
Proof.
  intros Hr. unfold get_layers, py_range.
  destruct (Z.eq_dec n_rows 1) as [-> | Hne]; [reflexivity |].
  replace (Z.to_nat (n_rows - 1)) with (S (Z.to_nat (n_rows - 2))) by lia.
  rewrite zseq_snoc, for_each_app, layers_lockstep.
  - cbn [bind]. rewrite zseq_length. cbn [for_each].
    unfold layers_body. cbv zeta. cbn [fst snd].
    rewrite (og_compose_graphix _ og). cbn [bind].
    destruct (Z.ltb_spec (1 + Z.of_nat (Z.to_nat (n_rows - 2))) (n_rows - 1));
      [lia |].
    reflexivity.
  - intros n Hn. apply zseq_In in Hn. lia.
Qed.

Lemma par_iter_inv og :
  ports_ok og -> bounded_ids og ->
  forall j,
    ports_ok (Nat.iter j (par_step og) og)
    /\ bounded_ids (Nat.iter j (par_step og) og)
    /\ length (inputs (Nat.iter j (par_step og) og)) = (S j * length (inputs og))%nat
    /\ length (outputs (Nat.iter j (par_step og) og)) = (S j * length (outputs og))%nat.
Proof.
  intros Hok Hb. induction j as [| j [I1 [I2 [I3 I4]]]].
  - simpl. split; [exact Hok | split; [exact Hb | split; lia]].
  - rewrite Nat.iter_succ.
    destruct (compose_parallel _ og I1 I2 Hok) as [J1 [J2 [J3 J4]]].
    split; [exact J1 | split; [exact J2 | split; lia]].
Qed.






(** ** The scenarios *)

Lemma NoDup_by_nodup (l : list Z) : nodup Z.eq_dec l = l -> NoDup l.
Proof. intros E. rewrite <- E. apply NoDup_nodup. Qed.

Lemma incl_by_mem (a b : list Z) : forallb (fun x => mem x b) a = true -> incl a b.
Proof.
  intros E x Hx. rewrite forallb_forall in E. apply mem_true, E, Hx.
Qed.

Lemma disjoint_by_mem (a b : list Z) :
  forallb (fun x => negb (mem x b)) a = true -> disjoint a b.
Proof.
  intros E x Hx. rewrite forallb_forall in E.
  apply mem_false, negb_true_iff, E, Hx.
Qed.

Lemma ports_ok_by_compute og :
  nodup Z.eq_dec (nodes (inside og)) = nodes (inside og) ->
  nodup Z.eq_dec (inputs og) = inputs og ->
  nodup Z.eq_dec (outputs og) = outputs og ->
  forallb (fun x => mem x (nodes (inside og))) (inputs og) = true ->
  forallb (fun x => mem x (nodes (inside og))) (outputs og) = true ->
  forallb (fun x => negb (mem x (outputs og))) (inputs og) = true ->
  ports_ok og.
Proof.
  intros. constructor;
    auto using NoDup_by_nodup, incl_by_mem, disjoint_by_mem.
Qed.

Lemma bounded_ids_by_compute og :
  forallb (fun v => v <? order (inside og)) (nodes (inside og)) = true ->
  bounded_ids og.
Proof.
  intros E v Hv. rewrite forallb_forall in E. apply Z.ltb_lt, E, Hv.
Qed.

Lemma get_og_1_ports_ok : ports_ok get_og_1.
Proof. apply ports_ok_by_compute; reflexivity. Qed.

Lemma get_og_1_bounded : bounded_ids get_og_1.
Proof. apply bounded_ids_by_compute; reflexivity. Qed.

Lemma get_og_2_ports_ok : ports_ok get_og_2.
Proof. apply ports_ok_by_compute; reflexivity. Qed.

Lemma compose_graphix_total a b m : exists r, compose_graphix a b m = Return r.
Proof. eexists; reflexivity. Qed.

(** C3.  The code does not return what the claim says.  With the pool
    [get_og_1, get_og_2], [n_blocks = [1, 3, 5]] and no merging, the node
    counts returned are [20, 38]: the loop stops before step 5, whose graph
    would have 56 nodes.  Asking for one more step shows it: with
    [n_blocks = [1, 3, 5, 6]] the counts are [20, 38, 56]. *)
Theorem generate_og_parallel_scenario (rng : Type) (random_seed : Z -> rng)
  (randbelow randfloor : nat -> rng -> nat * rng) (g0 : rng) :
  map_outcome snd
    (generate_og compose_graphix rng random_seed randbelow randfloor 5 g0
                 [get_og_1; get_og_2] [1; 3; 5] 0 None false 42)
  = Return [20; 38]
  /\ map_outcome snd
       (generate_og compose_graphix rng random_seed randbelow randfloor 6 g0
                    [get_og_1; get_og_2] [1; 3; 5; 6] 0 None false 42)
     = Return [20; 38; 56].
Proof. split; vm_compute; reflexivity. Qed.

(** The first snapshot of the scenario above has the inputs 0, 1, 10, 11.
    A cap of 4 empties its input list and a cap of 1 leaves three inputs. *)
Lemma generate_og_truncation_scenario (rng : Type) (random_seed : Z -> rng)
  (randbelow randfloor : nat -> rng -> nat * rng) (g0 : rng) :
  let inputs_of caps :=
    map_outcome (fun r => map inputs (fst r))
      (generate_og compose_graphix rng random_seed randbelow randfloor 2 g0
                   [get_og_1; get_og_2] [1; 2] 0 caps false 42) in
  inputs_of None = Return [[0; 1; 10; 11]]
  /\ inputs_of (Some [4]) = Return [[]]
  /\ inputs_of (Some [1]) = Return [[0; 1; 10]].
Proof. repeat split; vm_compute; reflexivity. Qed.

Lemma truncate_inputs_cap_reached_witness :
  py_len (inputs get_og_1) <= 2
  /\ truncate_inputs Z lcg_draw false get_og_1 2 0
     = Return (with_inputs get_og_1 [], 0).
Proof.
  split; [vm_compute; discriminate |].
  apply (truncate_inputs_cap_reached Z lcg_draw get_og_1 2 0).
  vm_compute; discriminate.
Defined.

Lemma truncate_inputs_keeps_front_witness :
  let og := par_step get_og_1 get_og_1 in
  (NoDup (inputs og) /\ 1 < py_len (inputs og))
  /\ truncate_inputs Z lcg_draw false og 1 0
     = Return (with_inputs og (firstn (Z.to_nat (py_len (inputs og) - 1))
                                      (inputs og)), 0).
Proof.
  cbv zeta.
  assert (H1 : NoDup (inputs (par_step get_og_1 get_og_1)))
    by (apply NoDup_by_nodup; reflexivity).
  assert (H2 : 1 < py_len (inputs (par_step get_og_1 get_og_1)))
    by (vm_compute; reflexivity).
  split; [split; assumption |].
  apply (truncate_inputs_keeps_front Z lcg_draw _ 1 0 H1 H2).
Defined.

Lemma generate_og_block_of_step_witness :
  ([get_og_1; get_og_2] <> []
   /\ py_max [1; 3; 5] = Return 5
   /\ 1 <= 5
   /\ (Z.to_nat 5 <= 5)%nat)
  /\ exists s,
       generate_og_run compose_graphix Z lcg_seed lcg_draw lcg_draw 5 0
         [get_og_1; get_og_2] [1; 3; 5] 0 None false 42 = Return s
       /\ length (gs_calls s) = Z.to_nat (5 - 1)
       /\ (forall i c,
             nth_error (gs_calls s) i = Some c ->
             call_step c = Z.of_nat i + 1
             /\ nth_error [get_og_1; get_og_2] (i mod length [get_og_1; get_og_2])
                = Some (call_other c))
       /\ (forall c,
             nth_error (gs_calls s) 0 = Some c ->
             nth_error [get_og_1; get_og_2] 0 = Some (call_self c)
             /\ nth_error [get_og_1; get_og_2] 0 = Some (call_other c)).
Proof.
  assert (H1 : [get_og_1; get_og_2] <> []) by discriminate.
  assert (H2 : py_max [1; 3; 5] = Return 5) by reflexivity.
  assert (H3 : 1 <= 5) by discriminate.
  assert (H4 : (Z.to_nat 5 <= 5)%nat) by (vm_compute; repeat constructor).
  split; [repeat split; assumption |].
  apply (generate_og_block_of_step compose_graphix Z lcg_seed lcg_draw lcg_draw
           5%nat 0 [get_og_1; get_og_2] [1; 3; 5] 5 0 None 42
           H1 H2 H3 H4 compose_graphix_total).
Defined.

(** C5 fails on the code: in the second iteration of
    [get_series_composition(get_og_1, 2)] the mapping sends the inputs 0, 1
    of the copy to 16, 17, the outputs of the graph composed so far, and not
    to 8, 9, the outputs of the block. *)
Lemma series_mapping_counterexample :
  exists r c,
    get_series_composition_run compose_graphix get_og_1 2 = Return r
    /\ nth_error (snd r) 1 = Some c
    /\ call_step c = 2
    /\ call_mapping c = [(0, 16); (1, 17)]
    /\ dict_of_pairs (combine (inputs get_og_1) (outputs get_og_1))
       = [(0, 8); (1, 9)]
    /\ call_mapping c
       <> dict_of_pairs (combine (inputs get_og_1) (outputs get_og_1)).
Proof.
  destruct (get_series_composition_run compose_graphix get_og_1 2)
    as [r | e |] eqn:E; [| vm_compute in E; discriminate ..].
  exists r.
  assert (Em : map call_mapping (snd r) = [[(0, 8); (1, 9)]; [(0, 16); (1, 17)]]).
  { vm_compute in E. injection E as <-. reflexivity. }
  assert (Es : map call_step (snd r) = [1; 2]).
  { vm_compute in E. injection E as <-. reflexivity. }
  destruct (snd r) as [| c0 [| c [| c2 rest]]]; try discriminate.
  exists c. simpl in Em, Es.
  injection Em as _ Ec. injection Es as _ Es.
  repeat split; auto.
  rewrite Ec. vm_compute. discriminate.
Qed.

Lemma series_mapping_uses_running_graph_witness :
  exists r,
    get_series_composition_run compose_graphix get_og_1 2 = Return r
    /\ length (snd r) = Z.to_nat 2
    /\ forall k c,
         nth_error (snd r) k = Some c ->
         exists og_k,
           get_series_composition compose_graphix get_og_1 (Z.of_nat k) = Return og_k
           /\ call_step c = Z.of_nat k + 1
           /\ call_self c = og_k
           /\ call_other c = get_og_1
           /\ call_mapping c
              = dict_of_pairs (combine (inputs get_og_1) (outputs og_k)).
Proof.
  apply (series_mapping_uses_running_graph compose_graphix get_og_1 2
           compose_graphix_total).
Defined.

(** C6.  The code does not do what the claim says.  For the block with the
    nodes 1, 2, 3, 4, the inputs 1, 2 and the outputs 3, 4, two rows and one
    layer are two copies of the block side by side: 8 nodes, 4 inputs and
    4 outputs.  [get_layers] sends the boundary of the second copy to the
    labels 4, 5, 6, 7, counting from the number of nodes of the first copy,
    and 4 is the second output of the first copy: the merge identifies the
    two nodes, which leave the boundary.  The graph returned has 7 nodes, the
    inputs 1, 2, 5 and the outputs 3, 6, 7.  The checks of the merge primitive
    let the call through. *)
Theorem get_grid_composition_fuses_copies :
  ports_ok block_from_one
  /\ length (inputs block_from_one) = 2%nat
  /\ length (outputs block_from_one) = 2%nat
  /\ order (inside block_from_one) = 4
  /\ get_grid_composition compose_checked 1 block_from_one 2 1
     = get_grid_composition compose_graphix 1 block_from_one 2 1
  /\ exists og',
       get_grid_composition compose_graphix 1 block_from_one 2 1 = Return og'
       /\ order (inside og') = 7
       /\ inputs og' = [1; 2; 5]
       /\ outputs og' = [3; 6; 7]
       /\ py_len (inputs og') <> 2 * 2
       /\ py_len (outputs og') <> 2 * 2.
Proof.
  split; [apply ports_ok_by_compute; reflexivity |].
  split; [reflexivity |]. split; [reflexivity |]. split; [reflexivity |].
  split; [vm_compute; reflexivity |].
  destruct (get_grid_composition compose_graphix 1 block_from_one 2 1)
    as [og' | e |] eqn:E; [| vm_compute in E; discriminate ..].
  exists og'. split; [reflexivity |].
  vm_compute in E. injection E as <-.
  repeat split; try reflexivity; vm_compute; discriminate.
Qed.

(** C7 fails on the code: [n_rows = 2] and [n_layers = 1] are within their
    bounds, and [get_grid_composition] raises a [ValueError] all the same.
    The block has the nodes 1, ..., 5; [get_layers] sends the first input of
    the second copy to the label 5, the number of nodes, which is the inner
    node of the first copy, measured at another angle; the merge primitive
    refuses to identify the two, and its [ValueError] leaves
    [get_grid_composition] as it is.  The block is a well-formed open
    graph. *)
Lemma grid_value_error_counterexample :
  ports_ok block_measured_five
  /\ 1 <= 2 /\ 1 <= 1
  /\ get_grid_composition compose_checked 1 block_measured_five 2 1
     = Raise (ValueError
                "Attempted to merge nodes 1:5 but have different measurements")
  /\ "Attempted to merge nodes 1:5 but have different measurements"%string
     <> layers_msg
  /\ "Attempted to merge nodes 1:5 but have different measurements"%string
     <> rows_msg.
Proof.
  split; [apply ports_ok_by_compute; reflexivity |].
  split; [discriminate |]. split; [discriminate |].
  split; [vm_compute; reflexivity |].
  split; discriminate.
Qed.

Lemma get_grid_composition_invalid_argument_witness :
  get_grid_composition compose_checked 3 get_og_1 0 0
  = Raise (ValueError layers_msg)
  /\ get_grid_composition compose_checked 3 get_og_1 0 3
     = Raise (ValueError rows_msg)
  /\ raised_by_compose compose_checked
       "Attempted to merge nodes 1:5 but have different measurements".
Proof.
  split; [| split].
  - apply (proj1 (get_grid_composition_invalid_argument
                    compose_checked 3%nat get_og_1 0 0)).
    reflexivity.
  - apply (proj1 (proj2 (get_grid_composition_invalid_argument
                           compose_checked 3%nat get_og_1 0 3)));
      [discriminate | reflexivity].
  - apply (proj2 (proj2 (get_grid_composition_invalid_argument
                           compose_checked 1%nat block_measured_five 2 1)));
      [discriminate | discriminate | vm_compute; reflexivity].
Defined.


(** * Further properties of the generator *)

Lemma py_remove_incl x l r : py_remove x l = Return r -> incl r l.
Proof.
  revert r; induction l as [| y l IH]; intros r E; simpl in E; [discriminate |].
  destruct (x =? y).
  - injection E as <-. intros z Hz. right; exact Hz.
  - apply bind_return in E. destruct E as [r' [E1 E]]. injection E as <-.
    intros z [-> | Hz]; [left; reflexivity | right; apply (IH r' E1); exact Hz].
Qed.

Lemma py_remove_absent x l :
  ~ In x l -> py_remove x l = Raise (ValueError "list.remove(x): x not in list").
Proof.
  induction l as [| y l IH]; intros H; simpl; [reflexivity |].
  destruct (Z.eqb_spec x y) as [-> | Hne]; [elim H; left; reflexivity |].
  rewrite IH; [reflexivity |]. intros Hx. apply H. right; exact Hx.
Qed.

Lemma py_remove_NoDup x l r :
  NoDup l -> py_remove x l = Return r -> ~ In x r.
Proof.
  revert r; induction l as [| y l IH]; intros r Hnd E; simpl in E; [discriminate |].
  inversion Hnd as [| ? ? Hn Hnd']; subst.
  destruct (Z.eqb_spec x y) as [-> | Hne].
  - injection E as <-. exact Hn.
  - apply bind_return in E. destruct E as [r' [E1 E]]. injection E as <-.
    intros [E | Hx]; [congruence | exact (IH r' Hnd' E1 Hx)].
Qed.

Lemma remove_all_incl ins l r : remove_all ins l = Return r -> incl r l.
Proof.
  revert l r; induction ins as [| i ins IH]; intros l r E; simpl in E.
  - injection E as <-. apply incl_refl.
  - apply bind_return in E. destruct E as [l' [E1 E]].
    apply py_remove_incl in E1. apply IH in E.
    intros z Hz. apply E1, E, Hz.
Qed.

Lemma dict_set_keys {V : Type} (d : dict V) k v x :
  In x (dict_keys (dict_set d k v)) <-> x = k \/ In x (dict_keys d).
Proof.
  induction d as [| [k' v'] d IH]; simpl; [intuition |].
  destruct (Z.eqb_spec k k') as [-> | Hne]; simpl; [intuition |].
  rewrite IH. intuition.
Qed.

Lemma dict_set_values {V : Type} (d : dict V) k v x :
  In x (dict_values (dict_set d k v)) -> x = v \/ In x (dict_values d).
Proof.
  induction d as [| [k' v'] d IH]; simpl; [intuition |].
  destruct (Z.eqb_spec k k') as [-> | Hne]; simpl; intuition.
Qed.

Lemma dict_set_NoDup {V : Type} (d : dict V) k v :
  NoDup (dict_keys d) -> NoDup (dict_keys (dict_set d k v)).
Proof.
  induction d as [| [k' v'] d IH]; simpl; intros H.
  - constructor; [intros [] | constructor].
  - inversion H as [| ? ? Hn Hd]; subst.
    destruct (Z.eqb_spec k k') as [-> | Hne]; simpl.
    + constructor; assumption.
    + constructor; [| apply IH; exact Hd].
      intros Hx. apply dict_set_keys in Hx. destruct Hx; [congruence | tauto].
Qed.

Lemma dict_set_length {V : Type} (d : dict V) k v :
  (length (dict_set d k v) <= S (length d))%nat.
Proof.
  induction d as [| [k' v'] d IH]; simpl; [lia |].
  destruct (k =? k'); simpl; lia.
Qed.

(** A dictionary built from pairs has distinct keys, taken from the pairs,
    values taken from the pairs, and no more entries than there are pairs. *)
Lemma dict_of_pairs_spec {V : Type} (l : list (Z * V)) :
  NoDup (dict_keys (dict_of_pairs l))
  /\ incl (dict_keys (dict_of_pairs l)) (map fst l)
  /\ incl (dict_values (dict_of_pairs l)) (map snd l)
  /\ (length (dict_of_pairs l) <= length l)%nat.
Proof.
  unfold dict_of_pairs.
  assert (G : forall acc : dict V,
            NoDup (dict_keys acc) ->
            let d := fold_left (fun d kv => dict_set d (fst kv) (snd kv)) l acc in
            NoDup (dict_keys d)
            /\ incl (dict_keys d) (dict_keys acc ++ map fst l)
            /\ incl (dict_values d) (dict_values acc ++ map snd l)
            /\ (length d <= length acc + length l)%nat).
  { induction l as [| [k v] l IH]; intros acc Hacc; simpl.
    - rewrite !app_nil_r. repeat split; auto using incl_refl. lia.
    - destruct (IH (dict_set acc k v) (dict_set_NoDup acc k v Hacc))
        as [H1 [H2 [H3 H4]]].
      split; [exact H1 |]. split; [| split].
      + intros x Hx. apply H2 in Hx. apply in_app_or in Hx.
        apply in_or_app. destruct Hx as [Hx | Hx]; [| right; right; exact Hx].
        apply dict_set_keys in Hx. destruct Hx as [-> | Hx]; [right; left | left]; auto.
      + intros x Hx. apply H3 in Hx. apply in_app_or in Hx.
        apply in_or_app. destruct Hx as [Hx | Hx]; [| right; right; exact Hx].
        apply dict_set_values in Hx. destruct Hx as [-> | Hx]; [right; left | left]; auto.
      + assert (L := dict_set_length acc k v). lia. }
  destruct (G [] (NoDup_nil _)) as [H1 [H2 [H3 H4]]]. simpl in *.
  repeat split; assumption.
Qed.

(** A loop that is past its [break] value never stops. *)
Lemma enumerate_cycle_diverges {A St : Type} (saved : list A)
  (f : Z -> A -> St -> outcome St) (stop : Z) :
  saved <> [] ->
  (forall n x s, exists s', f n x s = Return s') ->
  forall fuel rest n s,
    stop < n -> enumerate_cycle fuel saved rest n stop f s = Diverge.
Proof.
  intros Hne Hf. induction fuel as [| fuel IH]; intros rest n s Hn; [reflexivity |].
  simpl. destruct (cycle_next saved rest) as [[x rest'] |] eqn:E.
  - destruct (Z.eqb_spec n stop); [lia |].
    destruct (Hf n x s) as [s' ->]. simpl. apply IH. lia.
  - destruct rest; [destruct saved; [congruence | discriminate] | discriminate].
Qed.

Section GeneratorEdges.

Variable compose : OpenGraph -> OpenGraph -> dict Z -> outcome (OpenGraph * dict Z).
Variable rng : Type.
Variable random_seed : Z -> rng.
Variable randbelow : nat -> rng -> nat * rng.
Variable randfloor : nat -> rng -> nat * rng.

(** X1.  [generate_og] fails before doing anything when it is given nothing
    to work on: an empty [n_blocks] makes [max] raise a [ValueError], and an
    empty pool makes the choice of the first graph raise an [IndexError], in
    deterministic and in stochastic mode alike. *)
Theorem generate_og_empty_arguments fuel g0 og_blocks n ns mnm caps rnd seed :
  generate_og compose rng random_seed randbelow randfloor
              fuel g0 og_blocks [] mnm caps rnd seed
  = Raise (ValueError "max() arg is an empty sequence")
  /\ generate_og compose rng random_seed randbelow randfloor
                 fuel g0 [] (n :: ns) mnm caps rnd seed
     = Raise IndexError.
Proof. split; [reflexivity |]. destruct rnd; reflexivity. Qed.

(** X2.  When the largest requested step count is below 1, the step counter,
    which starts at 1, never meets it: in deterministic mode, on a non-empty
    pool, the loop composes for ever, whatever fuel it is given. *)
Theorem generate_og_never_stops fuel g0 og_blocks n_blocks n_max mnm caps seed :
  og_blocks <> [] ->
  py_max n_blocks = Return n_max ->
  n_max < 1 ->
  (forall a b m, exists r, compose a b m = Return r) ->
  generate_og compose rng random_seed randbelow randfloor
              fuel g0 og_blocks n_blocks mnm caps false seed
  = Diverge.
Proof.
  intros Hne Hmax Hn Htot. unfold generate_og, generate_og_run. rewrite Hmax.
  destruct og_blocks as [| b bs] eqn:Eb; [congruence |]. rewrite <- Eb in *.
  cbn [bind negb].
  replace (py_index og_blocks 0) with (Return b) by (rewrite Eb; reflexivity).
  cbn [bind fst snd].
  rewrite enumerate_cycle_diverges; [reflexivity | exact Hne | | lia].
  intros n x s. apply gen_body_det. exact Htot.
Qed.

Lemma py_len_nonneg {A : Type} (l : list A) : 0 <= py_len l.
Proof. unfold py_len. lia. Qed.

Lemma effective_width_range og1 og2 mnm :
  0 <= effective_width og1 og2 mnm
  /\ effective_width og1 og2 mnm <= py_len (outputs og1)
  /\ effective_width og1 og2 mnm <= py_len (inputs og2).
Proof.
  unfold effective_width.
  assert (H1 := py_len_nonneg (outputs og1)).
  assert (H2 := py_len_nonneg (inputs og2)).
  rewrite Z.gtb_ltb.
  destruct (Z.ltb_spec (Z.min (py_len (outputs og1)) (py_len (inputs og2))) mnm);
    destruct (Z.ltb_spec mnm 0); simpl; lia.
Qed.

Lemma get_mapping_zero rnd og1 og2 g :
  get_mapping rng randfloor rnd og1 og2 0 g = Return ([], g).
Proof.
  unfold get_mapping.
  assert (H1 := py_len_nonneg (outputs og1)).
  assert (H2 := py_len_nonneg (inputs og2)).
  rewrite Z.gtb_ltb.
  destruct (Z.ltb_spec (Z.min (py_len (outputs og1)) (py_len (inputs og2))) 0);
    [lia |].
  cbn [orb]. change (0 <? 0) with false. cbv iota.
  destruct rnd; cbn [negb].
  - reflexivity.
  - rewrite !py_slice_to by lia. reflexivity.
Qed.

(** X3.  With [merged_nodes_max = 0] the mapping handed to the merge
    primitive is empty, in both modes, and the random generator is not
    used: the blocks are composed in parallel. *)
Theorem get_mapping_parallel rnd og1 og2 g :
  get_mapping rng randfloor rnd og1 og2 0 g = Return ([], g).
Proof. apply get_mapping_zero. Qed.

(** X4.  In deterministic mode the mapping pairs the first [k] inputs of the
    next block with the first [k] outputs of the running graph, in order,
    where [k] is [merged_nodes_max] clamped to the smaller boundary: a request
    that exceeds the boundary, or a negative one, merges as many nodes as
    there are. *)
Theorem get_mapping_clamps og1 og2 mnm g :
  NoDup (inputs og2) ->
  let k := Z.to_nat (effective_width og1 og2 mnm) in
  get_mapping rng randfloor false og1 og2 mnm g
  = Return (combine (firstn k (inputs og2)) (firstn k (outputs og1)), g)
  /\ length (combine (firstn k (inputs og2)) (firstn k (outputs og1))) = k
  /\ (mnm < 0 \/ Z.min (py_len (outputs og1)) (py_len (inputs og2)) < mnm ->
      effective_width og1 og2 mnm
      = Z.min (py_len (outputs og1)) (py_len (inputs og2))).
Proof.
  intros Hnd k. destruct (effective_width_range og1 og2 mnm) as [W0 [W1 W2]].
  split; [| split].
  - unfold get_mapping. fold (effective_width og1 og2 mnm). cbn [negb bind fst snd].
    rewrite !py_slice_to by exact W0. fold k.
    rewrite dict_of_pairs_NoDup; [reflexivity |].
    rewrite combine_keys. apply NoDup_firstn, NoDup_firstn, Hnd.
  - rewrite length_combine, !length_firstn. unfold py_len in *. lia.
  - intros H. unfold effective_width. rewrite Z.gtb_ltb.
    destruct (Z.ltb_spec (Z.min (py_len (outputs og1)) (py_len (inputs og2))) mnm);
      destruct (Z.ltb_spec mnm 0); simpl; lia.
Qed.

Lemma random_choices_spec {A : Type} (l : list A) :
  draws_in_range randfloor ->
  forall k g,
    (k = 0%nat \/ l <> []) ->
    exists xs g',
      random_choices rng randfloor l k g = Return (xs, g')
      /\ length xs = k /\ incl xs l.
Proof.
  intros Hr. induction k as [| k IH]; intros g Hk.
  - exists [], g. simpl. repeat split; auto. intros x [].
  - assert (Hl : l <> []) by (destruct Hk; [discriminate | assumption]).
    assert (Hlen : (0 < length l)%nat) by (destruct l; [congruence | simpl; lia]).
    simpl. unfold py_index.
    destruct (nth_error l (fst (randfloor (length l) g))) as [x |] eqn:En.
    + simpl. destruct (IH (snd (randfloor (length l) g)) (or_intror Hl))
        as [xs [g' [E [L I]]]].
      rewrite E. simpl. exists (x :: xs), g'. repeat split; [simpl; lia |].
      intros y [<- | Hy]; [eapply nth_error_In; exact En | apply I; exact Hy].
    + apply nth_error_None in En. specialize (Hr (length l) g Hlen). lia.
Qed.

Lemma get_mapping_spec rnd og1 og2 mnm g :
  draws_in_range randfloor ->
  exists m g',
    get_mapping rng randfloor rnd og1 og2 mnm g = Return (m, g')
    /\ NoDup (dict_keys m)
    /\ incl (dict_keys m) (inputs og2)
    /\ incl (dict_values m) (outputs og1)
    /\ Z.of_nat (length m) <= effective_width og1 og2 mnm.
Proof.
  intros Hr. destruct (effective_width_range og1 og2 mnm) as [W0 [W1 W2]].
  unfold get_mapping. fold (effective_width og1 og2 mnm).
  set (k := Z.to_nat (effective_width og1 og2 mnm)).
  assert (Hk : forall A (l : list A), Z.of_nat k <= py_len l -> k = 0%nat \/ l <> []).
  { intros A l H. destruct l; [left; unfold py_len in H; simpl in H; lia
                              | right; discriminate]. }
  assert (S : exists ins outs g',
             (ins <- (if negb rnd
                      then Return (py_slice None (Some (effective_width og1 og2 mnm))
                                            (inputs og2), g)
                      else random_choices rng randfloor (inputs og2) k g) ;;
              outs <- (if negb rnd
                       then Return (py_slice None (Some (effective_width og1 og2 mnm))
                                             (outputs og1), snd ins)
                       else random_choices rng randfloor (outputs og1) k (snd ins)) ;;
              Return (dict_of_pairs (combine (fst ins) (fst outs)), snd outs))
             = Return (dict_of_pairs (combine ins outs), g')
             /\ (length ins <= k)%nat /\ incl ins (inputs og2)
             /\ incl outs (outputs og1)).
  { destruct rnd; cbn [negb].
    - destruct (random_choices_spec (inputs og2) Hr k g)
        as [ins [g1 [E1 [L1 I1]]]]; [apply Hk; subst k; lia |].
      destruct (random_choices_spec (outputs og1) Hr k g1)
        as [outs [g2 [E2 [L2 I2]]]]; [apply Hk; subst k; lia |].
      exists ins, outs, g2. rewrite E1. cbn [bind fst snd]. rewrite E2.
      cbn [bind fst snd]. repeat split; auto. lia.
    - exists (py_slice None (Some (effective_width og1 og2 mnm)) (inputs og2)),
             (py_slice None (Some (effective_width og1 og2 mnm)) (outputs og1)), g.
      cbn [bind fst snd]. repeat split; try apply py_slice_incl.
      rewrite py_slice_to by exact W0. rewrite length_firstn. fold k. lia. }
  destruct S as [ins [outs [g' [E [L [I1 I2]]]]]].
  exists (dict_of_pairs (combine ins outs)), g'.
  destruct (dict_of_pairs_spec (combine ins outs)) as [D1 [D2 [D3 D4]]].
  split; [exact E |]. split; [exact D1 |]. split; [| split].
  - intros x Hx. apply D2 in Hx. rewrite combine_keys in Hx.
    apply In_firstn in Hx. apply I1, Hx.
  - intros x Hx. apply D3 in Hx. rewrite combine_values in Hx.
    apply In_firstn in Hx. apply I2, Hx.
  - rewrite length_combine in D4. subst k. lia.
Qed.

(** X5.  Whatever the mode, [get_mapping] returns a one-key-per-input
    dictionary from inputs of the next block to outputs of the running
    graph, with at most as many entries as the clamped merge width; in
    stochastic mode a repeated draw makes it smaller. *)
Theorem get_mapping_well_formed rnd og1 og2 mnm g :
  draws_in_range randfloor ->
  exists m g',
    get_mapping rng randfloor rnd og1 og2 mnm g = Return (m, g')
    /\ NoDup (dict_keys m)
    /\ incl (dict_keys m) (inputs og2)
    /\ incl (dict_values m) (outputs og1)
    /\ Z.of_nat (length m) <= effective_width og1 og2 mnm.
Proof. apply get_mapping_spec. Qed.

Lemma truncate_inputs_only_inputs rnd og ni_max g r :
  truncate_inputs rng randfloor rnd og ni_max g = Return r ->
  only_inputs_dropped og (fst r).
Proof.
  unfold truncate_inputs. intros E.
  apply bind_return in E. destruct E as [ins [_ E]].
  apply bind_return in E. destruct E as [inputs' [Er E]].
  injection E as <-. simpl. repeat split.
  apply remove_all_incl in Er. exact Er.
Qed.

(** X6.  The post-processing loop only ever takes identifiers out of the
    input lists: every snapshot keeps its graph, its measurements and its
    outputs, its new inputs are among the old ones, and the snapshots beyond
    the end of [ni_max_vals] are not touched at all.  In deterministic mode
    the loop always completes. *)
Theorem truncate_all_only_inputs og_lst ni_max_vals g :
  (exists r, truncate_all rng randfloor false og_lst ni_max_vals g = Return r)
  /\ forall rnd r,
       truncate_all rng randfloor rnd og_lst ni_max_vals g = Return r ->
       Forall2 only_inputs_dropped og_lst (fst r)
       /\ skipn (length ni_max_vals) (fst r) = skipn (length ni_max_vals) og_lst.
Proof.
  split.
  - destruct (truncate_all_det rng randfloor og_lst ni_max_vals) as [r [E _]].
    exists (r, g). apply E.
  - intros rnd. revert ni_max_vals g.
    assert (Hrefl : forall l, Forall2 only_inputs_dropped l l).
    { induction l; constructor; auto. repeat split. apply incl_refl. }
    induction og_lst as [| og ogs IH]; intros caps g r E.
    + destruct caps; simpl in E; injection E as <-; simpl;
        rewrite ?skipn_nil; split; auto.
    + destruct caps as [| cap caps].
      * simpl in E. injection E as <-. simpl. split; auto.
      * simpl truncate_all in E.
        apply bind_return in E. destruct E as [x [Ex E]].
        apply bind_return in E. destruct E as [y [Ey E]].
        injection E as <-. apply truncate_inputs_only_inputs in Ex.
        destruct (IH _ _ _ Ey) as [F S]. simpl. split; [constructor; assumption | exact S].
Qed.

(** X7.  In stochastic mode the identifiers to remove are drawn with
    replacement, and [list.remove] does not tolerate a repetition: when two
    inputs are to be removed and the same index comes out twice, the second
    removal raises a [ValueError]. *)
Theorem truncate_inputs_repeated_draw og ni_max g i :
  NoDup (inputs og) ->
  py_len (inputs og) - ni_max = 2 ->
  (i < length (inputs og))%nat ->
  fst (randfloor (length (inputs og)) g) = i ->
  fst (randfloor (length (inputs og)) (snd (randfloor (length (inputs og)) g))) = i ->
  truncate_inputs rng randfloor true og ni_max g
  = Raise (ValueError "list.remove(x): x not in list").
Proof.
  intros Hnd Hrem Hi D1 D2. unfold truncate_inputs. rewrite Hrem.
  change (Z.to_nat (Z.max 0 2)) with 2%nat. cbn [negb random_choices].
  rewrite D1, D2. unfold py_index.
  destruct (nth_error (inputs og) i) as [x |] eqn:En;
    [| apply nth_error_None in En; lia].
  cbn [bind fst snd remove_all].
  destruct (py_remove_In x (inputs og) (nth_error_In _ _ En)) as [r Er].
  rewrite Er. cbn [bind].
  rewrite (py_remove_absent x r (py_remove_NoDup x _ r Hnd Er)). reflexivity.
Qed.

Lemma random_choice_spec {A : Type} (l : list A) g :
  draws_in_range randbelow -> l <> [] ->
  exists x g', random_choice rng randbelow l g = Return (x, g') /\ In x l.
Proof.
  intros Hr Hl. unfold random_choice.
  assert (Hlen : (0 < length l)%nat) by (destruct l; [congruence | simpl; lia]).
  destruct l as [| a l'] eqn:El; [congruence |]. rewrite <- El in *.
  unfold py_index.
  destruct (nth_error l (fst (randbelow (length l) g))) as [x |] eqn:En.
  - exists x, (snd (randbelow (length l) g)). split; [reflexivity |].
    eapply nth_error_In; exact En.
  - apply nth_error_None in En. specialize (Hr (length l) g Hlen). lia.
Qed.

Lemma gen_body_returns rnd mnm set n og2 s :
  draws_in_range randfloor ->
  (forall a b m, exists r, compose a b m = Return r) ->
  exists s', gen_body compose rng randfloor rnd mnm set n og2 s = Return s'.
Proof.
  intros Hr Htot. unfold gen_body.
  destruct (get_mapping_spec rnd (gs_og1 s) og2 mnm (gs_rng s) Hr)
    as [m [g' [E _]]].
  rewrite E. cbn [bind fst snd]. unfold og_compose.
  destruct (Htot (gs_og1 s) og2 m) as [r Ec]. rewrite Ec.
  cbn [bind]. destruct (mem n set); eexists; reflexivity.
Qed.

(** In stochastic mode without input caps the call returns. *)
Lemma run_stochastic_returns fuel g0 og_blocks n_blocks n_max mnm seed :
  og_blocks <> [] ->
  py_max n_blocks = Return n_max ->
  1 <= n_max ->
  (Z.to_nat n_max <= fuel)%nat ->
  (forall a b m, exists r, compose a b m = Return r) ->
  draws_in_range randbelow ->
  draws_in_range randfloor ->
  exists s,
    generate_og_run compose rng random_seed randbelow randfloor
                    fuel g0 og_blocks n_blocks mnm None true seed = Return s.
Proof.
  intros Hne Hmax Hn Hf Htot Hb Hfl.
  unfold generate_og_run. rewrite Hmax. cbn [bind negb].
  destruct (random_choice_spec og_blocks (random_seed seed) Hb Hne)
    as [b [g1 [E _]]].
  rewrite E. cbn [bind fst snd].
  rewrite enumerate_cycle_steps by (auto; lia).
  match goal with
  | |- context [for_each ?l ?f ?s0] =>
    destruct (for_each_total (fun _ : gen_state rng => True) l f) with (s := s0)
      as [s1 [E1 _]]; [| exact I | rewrite E1]
  end.
  - intros x t _ _.
    destruct (gen_body_returns true mnm (nodup Z.eq_dec n_blocks)
                               (fst x) (snd x) t Hfl Htot) as [t' Et].
    exists t'. split; [exact Et | exact I].
  - eexists. reflexivity.
Qed.

(** C2.  A call of [generate_og] with a non-empty pool and a non-empty
    [n_blocks] of positive integers, whose maximum is [n_max], stops before
    the composition step [n_max].  Whenever the call returns its pair
    [(og_lst, og_nodes)], in either mode and with or without input caps, both
    lists have as many elements as [n_blocks] has distinct values, less one:
    the snapshot of step [n_max] is not among them.  The two lists are those
    the run leaves behind, and the merge primitive was called at the steps
    1, ..., [n_max - 1] and at no other, so never at step [n_max].  The
    missing snapshot raises nothing: when the merge primitive returns, the
    call returns in deterministic mode, and in stochastic mode without input
    caps. *)
Theorem generate_og_stops_before_max
  fuel g0 og_blocks n_blocks n_max mnm caps rnd seed :
  og_blocks <> [] ->
  py_max n_blocks = Return n_max ->
  Forall (fun n => 0 < n) n_blocks ->
  (Z.to_nat n_max <= fuel)%nat ->
  (forall og_lst og_nodes,
     generate_og compose rng random_seed randbelow randfloor
                 fuel g0 og_blocks n_blocks mnm caps rnd seed
     = Return (og_lst, og_nodes) ->
     length og_lst = (length (nodup Z.eq_dec n_blocks) - 1)%nat
     /\ length og_nodes = (length (nodup Z.eq_dec n_blocks) - 1)%nat
     /\ exists s,
          generate_og_run compose rng random_seed randbelow randfloor
                          fuel g0 og_blocks n_blocks mnm caps rnd seed
          = Return s
          /\ og_lst = gs_og_lst s
          /\ og_nodes = gs_og_nodes s
          /\ map call_step (gs_calls s) = py_range 1 n_max
          /\ ~ In n_max (map call_step (gs_calls s)))
  /\ ((forall a b m, exists r, compose a b m = Return r) ->
      rnd = false
      \/ (caps = None /\ draws_in_range randbelow /\ draws_in_range randfloor) ->
      exists og_lst og_nodes,
        generate_og compose rng random_seed randbelow randfloor
                    fuel g0 og_blocks n_blocks mnm caps rnd seed
        = Return (og_lst, og_nodes)).
Proof.
  intros Hne Hmax Hpos Hf.
  assert (Hn : 1 <= n_max).
  { destruct (py_max_spec _ _ Hmax) as [Hin _].
    rewrite Forall_forall in Hpos. specialize (Hpos _ Hin). lia. }
  split.
  - intros og_lst og_nodes E. unfold generate_og in E.
    apply bind_return in E. destruct E as [s [Es E]].
    injection E as <- <-.
    destruct (run_spec compose rng random_seed randbelow randfloor
                       _ _ _ _ _ _ _ _ _ _ Hne Hmax Hn Hf Es)
      as [Hs [_ [_ [L1 L2]]]].
    unfold py_range in *.
    rewrite requested_steps_count in L1, L2 by assumption.
    split; [exact L1 |]. split; [exact L2 |].
    exists s. split; [exact Es |]. split; [reflexivity |].
    split; [reflexivity |]. split; [exact Hs |].
    rewrite Hs, zseq_In. lia.
  - intros Htot Hmode.
    assert (R : exists s,
               generate_og_run compose rng random_seed randbelow randfloor
                               fuel g0 og_blocks n_blocks mnm caps rnd seed
               = Return s).
    { destruct Hmode as [-> | [-> [Hb Hfl]]].
      - eapply run_det_returns; eauto.
      - destruct rnd.
        + eapply run_stochastic_returns; eauto.
        + eapply run_det_returns; eauto. }
    destruct R as [s Es]. exists (gs_og_lst s), (gs_og_nodes s).
    unfold generate_og. rewrite Es. reflexivity.
Qed.

(** X8.  In stochastic mode only the first graph is drawn at random: the
    block composed at step [k] is still [og_blocks[(k - 1) mod len]], taken
    from the cycle, and the steps performed are still 1, ..., [n_max - 1].
    Without input caps the call returns. *)
Theorem generate_og_stochastic_next_block
  fuel g0 og_blocks n_blocks n_max mnm seed :
  og_blocks <> [] ->
  py_max n_blocks = Return n_max ->
  1 <= n_max ->
  (Z.to_nat n_max <= fuel)%nat ->
  (forall a b m, exists r, compose a b m = Return r) ->
  draws_in_range randbelow ->
  draws_in_range randfloor ->
  exists s,
    generate_og_run compose rng random_seed randbelow randfloor
                    fuel g0 og_blocks n_blocks mnm None true seed = Return s
    /\ length (gs_calls s) = Z.to_nat (n_max - 1)
    /\ forall i c,
         nth_error (gs_calls s) i = Some c ->
         call_step c = Z.of_nat i + 1
         /\ nth_error og_blocks (i mod length og_blocks) = Some (call_other c).
Proof.
  intros Hne Hmax Hn Hf Htot Hb Hfl.
  assert (R : exists s,
             generate_og_run compose rng random_seed randbelow randfloor
               fuel g0 og_blocks n_blocks mnm None true seed = Return s).
  { unfold generate_og_run. rewrite Hmax. cbn [bind negb].
    destruct (random_choice_spec og_blocks (random_seed seed) Hb Hne)
      as [b [g1 [E _]]].
    rewrite E. cbn [bind fst snd].
    rewrite enumerate_cycle_steps by (auto; lia).
    match goal with
    | |- context [for_each ?l ?f ?s0] =>
      destruct (for_each_total (fun _ : gen_state rng => True) l f) with (s := s0)
        as [s1 [E1 _]]; [| exact I | rewrite E1]
    end.
    - intros x t _ _.
      destruct (gen_body_returns true mnm (nodup Z.eq_dec n_blocks)
                                 (fst x) (snd x) t Hfl Htot) as [t' Et].
      exists t'. split; [exact Et | exact I].
    - eexists. reflexivity. }
  destruct R as [s E]. exists s. split; [exact E |].
  destruct (run_spec compose rng random_seed randbelow randfloor
                     _ _ _ _ _ _ _ _ _ _ Hne Hmax Hn Hf E)
    as [Hs [Ho _]].
  assert (L : length (gs_calls s) = Z.to_nat (n_max - 1)).
  { rewrite <- (length_map call_step), Hs. apply zseq_length. }
  split; [exact L |]. intros i c Hc.
  assert (Hlt : (i < Z.to_nat (n_max - 1))%nat).
  { rewrite <- L. apply nth_error_Some. congruence. }
  split.
  - assert (H1 : nth_error (map call_step (gs_calls s)) i = Some (call_step c)).
    { rewrite nth_error_map, Hc. reflexivity. }
    rewrite Hs in H1. unfold py_range in H1. rewrite zseq_nth in H1 by lia.
    assert (call_step c = 1 + Z.of_nat i) by congruence. lia.
  - assert (H2 : nth_error (map call_other (gs_calls s)) i = Some (call_other c)).
    { rewrite nth_error_map, Hc. reflexivity. }
    rewrite Ho in H2. rewrite <- H2.
    symmetry. apply (cycle_take_nth og_blocks Hne _ 0%nat i); lia.
Qed.

(** The two adders of the grid take turns, the first one at the even steps. *)
Lemma alternate_steps {St : Type} (a b : St -> outcome St) : forall k n s,
  (Z.even n = true ->
   forall rest, rest = [a; b] \/ rest = [] ->
     for_each (combine (zseq n k) (cycle_take k [a; b] rest))
              (fun nx => snd nx) s
     = for_each (zseq n k) (fun i g => if Z.even i then a g else b g) s)
  /\ (Z.even n = false ->
      for_each (combine (zseq n k) (cycle_take k [a; b] [b]))
               (fun nx => snd nx) s
      = for_each (zseq n k) (fun i g => if Z.even i then a g else b g) s).
Proof.
  induction k as [| k IH]; intros n s; [split; intros; reflexivity |].
  assert (Hs : Z.even (n + 1) = negb (Z.even n)).
  { rewrite Z.even_add. destruct (Z.even n); reflexivity. }
  split.
  - intros He rest Hrest. rewrite zseq_S.
    assert (Hc : cycle_take (S k) [a; b] rest = a :: cycle_take k [a; b] [b]).
    { destruct Hrest as [-> | ->]; reflexivity. }
    rewrite Hc. cbn [combine for_each fst snd]. rewrite He.
    destruct (a s) as [s1 | e |]; cbn [bind]; auto.
    apply (proj2 (IH (n + 1) s1)). rewrite Hs, He. reflexivity.
  - intros He. rewrite zseq_S. cbn [cycle_take cycle_next combine for_each fst snd].
    rewrite He. destruct (b s) as [s1 | e |]; cbn [bind]; auto.
    apply (proj1 (IH (n + 1) s1)); [rewrite Hs, He; reflexivity | right; reflexivity].
Qed.

(** X9.  The layers of the grid: the accumulated graph starts as layer 0,
    and the additions number 0, 1, ..., [n_layers - 2] attach layer 1 when
    their number is even and layer 0 when it is odd.  With one layer nothing
    is attached, and with one row and one layer the result is the block
    itself. *)
Theorem get_grid_composition_schedule fuel og n_rows n_layers :
  1 <= n_rows ->
  1 <= n_layers ->
  (Z.to_nat n_layers <= fuel)%nat ->
  get_grid_composition compose fuel og n_rows n_layers
  = (ls <- get_layers compose og n_rows ;;
     for_each (py_range 0 (n_layers - 1))
              (fun i g => if Z.even i then add_l1 compose (snd ls) g
                          else add_l0 compose (fst ls) g)
              (fst ls))
  /\ (n_layers = 1 ->
      get_grid_composition compose fuel og n_rows n_layers
      = (ls <- get_layers compose og n_rows ;; Return (fst ls)))
  /\ (n_rows = 1 -> n_layers = 1 ->
      get_grid_composition compose fuel og n_rows n_layers = Return og).
Proof.
  intros Hr Hl Hf.
  assert (E : get_grid_composition compose fuel og n_rows n_layers
              = (ls <- get_layers compose og n_rows ;;
                 for_each (py_range 0 (n_layers - 1))
                          (fun i g => if Z.even i then add_l1 compose (snd ls) g
                                      else add_l0 compose (fst ls) g)
                          (fst ls))).
  { unfold get_grid_composition.
    destruct (Z.ltb_spec n_layers 1); [lia |].
    destruct (Z.ltb_spec n_rows 1); [lia |].
    destruct (get_layers compose og n_rows) as [ls | e |]; cbn [bind]; auto.
    rewrite enumerate_cycle_steps by (try discriminate; lia).
    unfold py_range.
    apply (proj1 (alternate_steps (add_l1 compose (snd ls)) (add_l0 compose (fst ls))
                                  _ 0 (fst ls)));
      [reflexivity | left; reflexivity]. }
  split; [exact E |]. split.
  - intros ->. rewrite E. reflexivity.
  - intros -> ->. rewrite E. reflexivity.
Qed.

End GeneratorEdges.

(** ** The generator on the merge model *)

(** *** Node counts *)

Section LayerOrder.

Variables (og layer : OpenGraph) (vs : list Z).
Hypothesis og_ok : ports_ok og.
Hypothesis layer_ok : ports_ok layer.
Hypothesis vs_NoDup : NoDup vs.
Hypothesis vs_outputs : incl vs (outputs og).

Local Abbreviation m := (combine (inputs layer) vs).
Local Abbreviation mc := (mapping_complete og layer m).

(** Each identified pair is one node less. *)
Lemma compose_layer_order :
  order (inside (fst (compose_model og layer (dict_of_pairs m))))
  = order (inside og) + order (inside layer)
    - Z.of_nat (Nat.min (length (inputs layer)) (length vs)).
Proof.
  rewrite (layer_mapping_dict layer vs layer_ok).
  unfold compose_model. cbn [fst inside nodes]. unfold order, py_len at 1.
  cbn [nodes]. unfold add_nodes. rewrite length_app.
  assert (Hkeys : dict_keys m = firstn (length vs) (inputs layer))
    by (unfold dict_keys; apply combine_keys).
  assert (Ef : filter (fun v => negb (mem v (nodes (inside og))))
                      (map (relabel mc) (nodes (inside layer)))
               = map (relabel mc)
                     (filter (fun v => negb (mem v (dict_keys m)))
                             (nodes (inside layer)))).
  { rewrite filter_map_swap. f_equal. apply filter_ext_in. intros v Hv. f_equal.
    destruct (in_dec Z.eq_dec v (dict_keys m)) as [Hk | Hk].
    - rewrite (proj2 (mem_true v _) Hk). apply mem_true.
      destruct (relabel_key og layer m v Hk) as [Hu _].
      apply (po_outputs_in og og_ok).
      apply (layer_values_outputs og layer vs vs_outputs). exact Hu.
    - rewrite (proj2 (mem_false v _) Hk). apply mem_false. intros Hin.
      destruct (relabel_unmapped og layer m v Hv Hk) as [Hu _].
      apply (shift_above_nodes og m) in Hin. lia. }
  rewrite Ef. rewrite nodup_fixed_point.
  - rewrite length_map, filter_out_length.
    + rewrite Hkeys, length_firstn.
      assert (L : (length (inputs layer) <= length (nodes (inside layer)))%nat).
      { apply NoDup_incl_length; [apply (po_inputs layer layer_ok)
                                 | apply (po_inputs_in layer layer_ok)]. }
      unfold py_len. lia.
    + apply (po_nodes layer layer_ok).
    + rewrite Hkeys. apply NoDup_firstn, (po_inputs layer layer_ok).
    + rewrite Hkeys. intros v Hv. apply In_firstn in Hv.
      apply (po_inputs_in layer layer_ok). exact Hv.
  - apply relabel_NoDup.
    + apply (layer_values_NoDup layer vs vs_NoDup).
    + intros v Hv. apply filter_In in Hv. tauto.
    + apply NoDup_filter, (po_nodes layer layer_ok).
Qed.

End LayerOrder.

(** One deterministic step of the main loop on well-formed operands. *)
Lemma gen_step_graphix (rng : Type) (randfloor : nat -> rng -> nat * rng)
  mnm set n og2 s :
  ports_ok (gs_og1 s) -> ports_ok og2 ->
  let k := Z.to_nat (effective_width (gs_og1 s) og2 mnm) in
  exists og1',
    gen_body compose_graphix rng randfloor false mnm set n og2 s
    = Return (mkGenState rng og1'
                (if mem n set then gs_og_lst s ++ [og1'] else gs_og_lst s)
                (if mem n set then gs_og_nodes s ++ [order (inside og1')]
                 else gs_og_nodes s)
                (gs_rng s)
                (gs_calls s
                 ++ [(n, gs_og1 s, og2,
                      combine (firstn k (inputs og2)) (firstn k (outputs (gs_og1 s))))]))
    /\ ports_ok og1'
    /\ length (inputs og1')
       = (length (inputs (gs_og1 s)) + length (inputs og2) - k)%nat
    /\ length (outputs og1')
       = (length (outputs (gs_og1 s)) - k + length (outputs og2))%nat
    /\ order (inside og1')
       = order (inside (gs_og1 s)) + order (inside og2) - Z.of_nat k.
Proof.
  intros H1 H2 k.
  destruct (effective_width_range (gs_og1 s) og2 mnm) as [W0 [W1 W2]].
  set (vs := firstn k (outputs (gs_og1 s))).
  assert (Lv : length vs = k).
  { unfold vs. rewrite length_firstn. unfold py_len in W1. lia. }
  assert (Ec : combine (firstn k (inputs og2)) vs = combine (inputs og2) vs).
  { rewrite (combine_firstn_r (inputs og2) vs), Lv. reflexivity. }
  assert (Hnd : NoDup vs) by (apply NoDup_firstn, (po_outputs _ H1)).
  assert (Hin : incl vs (outputs (gs_og1 s))) by (intros x Hx; eapply In_firstn; exact Hx).
  destruct (compose_layer (gs_og1 s) og2 vs H1 H2 Hnd Hin) as [K1 [K2 K3]].
  assert (K4 := compose_layer_order (gs_og1 s) og2 vs H1 H2 Hnd Hin).
  rewrite (layer_mapping_dict og2 vs H2) in *.
  exists (fst (compose_model (gs_og1 s) og2 (combine (inputs og2) vs))).
  split; [| split; [exact K1 | split; [| split]]].
  - unfold gen_body, get_mapping. fold (effective_width (gs_og1 s) og2 mnm).
    cbn [negb bind fst snd]. rewrite !py_slice_to by exact W0. fold k. fold vs.
    rewrite Ec, (layer_mapping_dict og2 vs H2).
    rewrite og_compose_graphix. cbn [bind].
    destruct (mem n set); reflexivity.
  - rewrite K2, Lv.
    assert (k <= length (inputs og2))%nat by (unfold py_len in W2; lia). lia.
  - rewrite K3, Lv.
    assert (k <= length (inputs og2))%nat by (unfold py_len in W2; lia). lia.
  - rewrite K4, Lv.
    assert (k <= length (inputs og2))%nat by (unfold py_len in W2; lia). lia.
Qed.

(** With an empty mapping nothing is identified: the nodes add up. *)
Lemma compose_model_empty_order og1 og2 :
  NoDup (nodes (inside og2)) ->
  order (inside (fst (compose_model og1 og2 [])))
  = order (inside og1) + order (inside og2).
Proof.
  intros Hnd. unfold compose_model. cbn [fst inside nodes].
  rewrite add_nodes_disjoint.
  - unfold order, py_len. cbn [nodes]. rewrite length_app, length_map. lia.
  - apply relabel_NoDup; [constructor | apply incl_refl | exact Hnd].
  - intros y Hy Hin. apply in_map_iff in Hy. destruct Hy as [v [<- Hv]].
    destruct (relabel_unmapped og1 og2 [] v Hv (fun H => H)) as [Hu _].
    apply (shift_above_nodes og1 []) in Hin. lia.
Qed.

Lemma parallel_steps_counts (rng : Type) (randfloor : nat -> rng -> nat * rng)
  set steps : forall s,
  Forall (fun nx => NoDup (nodes (inside (snd nx)))) steps ->
  exists s',
    for_each steps
      (fun nx => gen_body compose_graphix rng randfloor false 0 set (fst nx) (snd nx)) s
    = Return s'
    /\ gs_og_nodes s'
       = gs_og_nodes s ++ node_counts set steps (order (inside (gs_og1 s))).
Proof.
  induction steps as [| [n b] steps IH]; intros s Hall.
  - exists s. simpl. rewrite app_nil_r. auto.
  - inversion Hall as [| ? ? Hb Hrest]; subst. cbn [snd] in Hb.
    cbn [for_each fst snd]. unfold gen_body at 1.
    rewrite get_mapping_zero. cbn [bind fst snd].
    rewrite og_compose_graphix. cbn [bind].
    assert (Eo := compose_model_empty_order (gs_og1 s) b Hb).
    cbn [node_counts].
    destruct (mem n set) eqn:Em; cbv iota; cbn [bind].
    + match goal with
      | |- context [for_each steps ?f ?s1] =>
        destruct (IH s1 Hrest) as [s' [E Ec]]
      end.
      exists s'. split; [exact E |]. rewrite Ec. cbn [gs_og_nodes gs_og1].
      rewrite Eo, <- app_assoc. reflexivity.
    + match goal with
      | |- context [for_each steps ?f ?s1] =>
        destruct (IH s1 Hrest) as [s' [E Ec]]
      end.
      exists s'. split; [exact E |]. rewrite Ec. cbn [gs_og_nodes gs_og1].
      rewrite Eo. reflexivity.
Qed.

(** X10.  Parallel composition adds node counts up.  In deterministic mode
    with [merged_nodes_max = 0], on the merge model, the node counts that
    [generate_og] returns are those of a graph that starts with the nodes of
    the first block and gains, at each step, the nodes of the next block of
    the cycle, read at the requested steps below the maximum; input caps do
    not change them. *)
Theorem generate_og_parallel_node_counts
  (rng : Type) (random_seed : Z -> rng)
  (randbelow randfloor : nat -> rng -> nat * rng)
  fuel g0 b bs n_blocks n_max caps seed :
  Forall (fun og => NoDup (nodes (inside og))) (b :: bs) ->
  py_max n_blocks = Return n_max ->
  1 <= n_max ->
  (Z.to_nat n_max <= fuel)%nat ->
  map_outcome snd
    (generate_og compose_graphix rng random_seed randbelow randfloor
                 fuel g0 (b :: bs) n_blocks 0 caps false seed)
  = Return (node_counts (nodup Z.eq_dec n_blocks)
              (combine (py_range 1 n_max)
                       (cycle_take (Z.to_nat (n_max - 1)) (b :: bs) (b :: bs)))
              (order (inside b))).
Proof.
  intros Hall Hmax Hn Hf. unfold generate_og, generate_og_run. rewrite Hmax.
  cbn [bind negb py_index nth_error fst snd].
  rewrite enumerate_cycle_steps by (try discriminate; lia).
  match goal with
  | |- context [for_each ?l ?f ?s0] =>
    destruct (parallel_steps_counts rng randfloor (nodup Z.eq_dec n_blocks) l s0)
      as [s1 [E Ec]]
  end.
  - apply Forall_forall. intros [n og] Hx. cbn [snd].
    apply in_combine_r in Hx. apply cycle_take_incl in Hx; [| apply incl_refl].
    rewrite Forall_forall in Hall. apply Hall. exact Hx.
  - rewrite E. cbn [bind]. cbn [gs_og_nodes gs_og1] in Ec. unfold py_range.
    destruct caps as [[| cap caps] |]; cbn [bind map_outcome gs_og_nodes snd];
      try (rewrite Ec; reflexivity).
    destruct (truncate_all_det rng randfloor (gs_og_lst s1) (cap :: caps)) as [r [Er _]].
    rewrite Er. cbn [bind gs_og_nodes snd]. rewrite Ec. reflexivity.
Qed.

(** X11.  One deterministic composition step on well-formed operands
    identifies exactly [k] boundary pairs, [k] being the clamped merge
    width: the result is well formed, it has the inputs of both operands
    less [k], their outputs less [k], and their nodes less [k]. *)
Theorem generate_og_step_boundary
  (rng : Type) (randfloor : nat -> rng -> nat * rng) mnm set n og2 s :
  ports_ok (gs_og1 s) ->
  ports_ok og2 ->
  exists s',
    gen_body compose_graphix rng randfloor false mnm set n og2 s = Return s'
    /\ ports_ok (gs_og1 s')
    /\ py_len (inputs (gs_og1 s'))
       = py_len (inputs (gs_og1 s)) + py_len (inputs og2)
         - effective_width (gs_og1 s) og2 mnm
    /\ py_len (outputs (gs_og1 s'))
       = py_len (outputs (gs_og1 s)) + py_len (outputs og2)
         - effective_width (gs_og1 s) og2 mnm
    /\ order (inside (gs_og1 s'))
       = order (inside (gs_og1 s)) + order (inside og2)
         - effective_width (gs_og1 s) og2 mnm.
Proof.
  intros H1 H2.
  destruct (effective_width_range (gs_og1 s) og2 mnm) as [W0 [W1 W2]].
  destruct (gen_step_graphix rng randfloor mnm set n og2 s H1 H2)
    as [og1' [E [P [L1 [L2 L3]]]]].
  eexists. split; [exact E |]. cbn [gs_og1].
  split; [exact P |]. unfold py_len in *. repeat split; lia.
Qed.

(** X12.  The composition keeps the boundary bookkeeping consistent: in
    deterministic mode, on the merge model, a pool of well-formed blocks
    gives well-formed snapshots, and the node counts returned are the orders
    of the snapshots. *)
Theorem generate_og_snapshots_well_formed
  (rng : Type) (random_seed : Z -> rng)
  (randbelow randfloor : nat -> rng -> nat * rng)
  fuel g0 b bs n_blocks n_max mnm seed :
  Forall ports_ok (b :: bs) ->
  py_max n_blocks = Return n_max ->
  1 <= n_max ->
  (Z.to_nat n_max <= fuel)%nat ->
  exists og_lst,
    generate_og compose_graphix rng random_seed randbelow randfloor
                fuel g0 (b :: bs) n_blocks mnm None false seed
    = Return (og_lst, map (fun og => order (inside og)) og_lst)
    /\ Forall ports_ok og_lst.
Proof.
  intros Hall Hmax Hn Hf. unfold generate_og, generate_og_run. rewrite Hmax.
  cbn [bind negb py_index nth_error fst snd].
  rewrite enumerate_cycle_steps by (try discriminate; lia).
  rewrite Forall_forall in Hall.
  match goal with
  | |- context [for_each ?l ?f ?s0] =>
    destruct (for_each_total
                (fun s => ports_ok (gs_og1 s) /\ Forall ports_ok (gs_og_lst s)
                          /\ gs_og_nodes s
                             = map (fun og => order (inside og)) (gs_og_lst s))
                l f) with (s := s0) as [s1 [E [_ [P2 P3]]]]
  end.
  - intros [n og2] s Hx [Q1 [Q2 Q3]]. cbn [fst snd].
    apply in_combine_r in Hx. apply cycle_take_incl in Hx; [| apply incl_refl].
    destruct (gen_step_graphix rng randfloor mnm (nodup Z.eq_dec n_blocks) n og2 s
                               Q1 (Hall og2 Hx)) as [og1' [E [P _]]].
    eexists. split; [exact E |]. cbn [gs_og1 gs_og_lst gs_og_nodes].
    split; [exact P |].
    destruct (mem n (nodup Z.eq_dec n_blocks)); [| auto].
    split.
    + apply Forall_app. split; [exact Q2 | constructor; [exact P | constructor]].
    + rewrite map_app, Q3. reflexivity.
  - cbn [gs_og1 gs_og_lst gs_og_nodes]. split; [| split; [constructor | reflexivity]].
    apply Hall. left. reflexivity.
  - rewrite E. cbn [bind]. exists (gs_og_lst s1). rewrite P3. auto.
Qed.

(** X13.  A chain of copies of a block with as many inputs as outputs is as
    wide as the block: on the merge model [get_series_composition] returns,
    for every [n], a well-formed graph with the same number of inputs and of
    outputs as the block. *)
Theorem get_series_composition_boundary og n :
  ports_ok og ->
  length (inputs og) = length (outputs og) ->
  exists og',
    get_series_composition compose_graphix og n = Return og'
    /\ ports_ok og'
    /\ length (inputs og') = length (inputs og)
    /\ length (outputs og') = length (outputs og).
Proof.
  intros Hok Hio. unfold get_series_composition, get_series_composition_run.
  match goal with
  | |- context [for_each ?l ?f ?s0] =>
    destruct (for_each_total
                (fun st : OpenGraph * list call =>
                   ports_ok (fst st)
                   /\ length (inputs (fst st)) = length (inputs og)
                   /\ length (outputs (fst st)) = length (outputs og))
                l f) with (s := s0) as [r [E [P1 [P2 P3]]]]
  end.
  - intros i [g log] _ [Q1 [Q2 Q3]]. cbn [fst] in *.
    unfold series_body. cbn [fst snd]. rewrite og_compose_graphix. cbn [bind].
    eexists. split; [reflexivity |]. cbn [fst].
    destruct (compose_layer g og (outputs g) Q1 Hok (po_outputs g Q1) (incl_refl _))
      as [K1 [K2 K3]].
    split; [exact K1 |]. rewrite K2, K3. lia.
  - cbn [fst]. auto.
  - rewrite E. cbn [bind]. exists (fst r). auto.
Qed.

(** ** Instances *)

Lemma lcg_draw_in_range : draws_in_range lcg_draw.
Proof.
  intros n g Hn. unfold lcg_draw. cbn [fst].
  assert (H := Z.mod_pos_bound ((1103515245 * g + 12345) mod 2147483648)
                               (Z.of_nat n)).
  lia.
Qed.

Lemma generate_og_stops_before_max_witness :
  ([get_og_1; get_og_2] <> []
   /\ py_max [1; 3; 5] = Return 5
   /\ Forall (fun n => 0 < n) [1; 3; 5]
   /\ (Z.to_nat 5 <= 5)%nat
   /\ (forall a b m, exists r, compose_graphix a b m = Return r)
   /\ draws_in_range lcg_draw)
  /\ exists og_lst og_nodes s,
       generate_og compose_graphix Z lcg_seed lcg_draw lcg_draw
                   5 0 [get_og_1; get_og_2] [1; 3; 5] (-1) None true 42
       = Return (og_lst, og_nodes)
       /\ length og_lst = 2%nat
       /\ length og_nodes = 2%nat
       /\ generate_og_run compose_graphix Z lcg_seed lcg_draw lcg_draw
                          5 0 [get_og_1; get_og_2] [1; 3; 5] (-1) None true 42
          = Return s
       /\ og_lst = gs_og_lst s
       /\ og_nodes = gs_og_nodes s
       /\ map call_step (gs_calls s) = [1; 2; 3; 4]
       /\ ~ In 5 (map call_step (gs_calls s)).
Proof.
  assert (H1 : [get_og_1; get_og_2] <> []) by discriminate.
  assert (H2 : py_max [1; 3; 5] = Return 5) by reflexivity.
  assert (H3 : Forall (fun n => 0 < n) [1; 3; 5])
    by (repeat constructor).
  assert (H4 : (Z.to_nat 5 <= 5)%nat) by (vm_compute; repeat constructor).
  split; [repeat split; try assumption;
          [apply compose_graphix_total | apply lcg_draw_in_range] |].
  destruct (generate_og_stops_before_max compose_graphix Z lcg_seed lcg_draw
              lcg_draw 5%nat 0 [get_og_1; get_og_2] [1; 3; 5] 5 (-1) None true 42
              H1 H2 H3 H4) as [A B].
  destruct (B compose_graphix_total
              (or_intror (conj eq_refl (conj lcg_draw_in_range lcg_draw_in_range))))
    as [og_lst [og_nodes E]].
  destruct (A og_lst og_nodes E) as [L1 [L2 [s [Es [E1 [E2 [S1 S2]]]]]]].
  exists og_lst, og_nodes, s.
  split; [exact E |]. split; [exact L1 |]. split; [exact L2 |].
  split; [exact Es |]. split; [exact E1 |]. split; [exact E2 |].
  split; [exact S1 | exact S2].
Defined.

Lemma generate_og_never_stops_witness :
  ([get_og_1] <> [] /\ py_max [0] = Return 0 /\ 0 < 1)
  /\ generate_og compose_graphix Z lcg_seed lcg_draw lcg_draw
                 7 0 [get_og_1] [0] (-1) None false 42
     = Diverge.
Proof.
  assert (H1 : [get_og_1] <> []) by discriminate.
  assert (H2 : py_max [0] = Return 0) by reflexivity.
  assert (H3 : 0 < 1) by reflexivity.
  split; [repeat split; assumption |].
  apply (generate_og_never_stops compose_graphix Z lcg_seed lcg_draw lcg_draw
           7%nat 0 [get_og_1] [0] 0 (-1) None 42 H1 H2 H3 compose_graphix_total).
Defined.

Lemma get_mapping_clamps_witness :
  NoDup (inputs get_og_1)
  /\ (get_mapping Z lcg_draw false get_og_1 get_og_1 5 0
      = Return (combine (firstn (Z.to_nat (effective_width get_og_1 get_og_1 5))
                                (inputs get_og_1))
                        (firstn (Z.to_nat (effective_width get_og_1 get_og_1 5))
                                (outputs get_og_1)), 0)
      /\ length (combine (firstn (Z.to_nat (effective_width get_og_1 get_og_1 5))
                                 (inputs get_og_1))
                         (firstn (Z.to_nat (effective_width get_og_1 get_og_1 5))
                                 (outputs get_og_1)))
         = Z.to_nat (effective_width get_og_1 get_og_1 5)
      /\ (5 < 0 \/ Z.min (py_len (outputs get_og_1)) (py_len (inputs get_og_1)) < 5 ->
          effective_width get_og_1 get_og_1 5
          = Z.min (py_len (outputs get_og_1)) (py_len (inputs get_og_1)))).
Proof.
  assert (H : NoDup (inputs get_og_1)) by (apply NoDup_by_nodup; reflexivity).
  split; [exact H |].
  apply (get_mapping_clamps Z lcg_draw get_og_1 get_og_1 5 0 H).
Defined.

Lemma get_mapping_well_formed_witness :
  draws_in_range lcg_draw
  /\ exists m g',
       get_mapping Z lcg_draw true get_og_1 get_og_2 2 7 = Return (m, g')
       /\ NoDup (dict_keys m)
       /\ incl (dict_keys m) (inputs get_og_2)
       /\ incl (dict_values m) (outputs get_og_1)
       /\ Z.of_nat (length m) <= effective_width get_og_1 get_og_2 2.
Proof.
  split; [exact lcg_draw_in_range |].
  apply (get_mapping_well_formed Z lcg_draw true get_og_1 get_og_2 2 7
           lcg_draw_in_range).
Defined.

Lemma truncate_inputs_repeated_draw_witness :
  (NoDup (inputs get_og_1) /\ py_len (inputs get_og_1) - 0 = 2)
  /\ truncate_inputs unit (fun _ g => (0%nat, g)) true get_og_1 0 tt
     = Raise (ValueError "list.remove(x): x not in list").
Proof.
  assert (H1 : NoDup (inputs get_og_1)) by (apply NoDup_by_nodup; reflexivity).
  assert (H2 : py_len (inputs get_og_1) - 0 = 2) by reflexivity.
  assert (H3 : (0 < length (inputs get_og_1))%nat) by (repeat constructor).
  split; [split; assumption |].
  apply (truncate_inputs_repeated_draw unit (fun _ g => (0%nat, g))
           get_og_1 0 tt 0%nat H1 H2 H3 eq_refl eq_refl).
Defined.

Lemma generate_og_stochastic_next_block_witness :
  exists s,
    generate_og_run compose_graphix Z lcg_seed lcg_draw lcg_draw
                    5 0 [get_og_1; get_og_2] [1; 3; 5] (-1) None true 42 = Return s
    /\ length (gs_calls s) = Z.to_nat (5 - 1)
    /\ forall i c,
         nth_error (gs_calls s) i = Some c ->
         call_step c = Z.of_nat i + 1
         /\ nth_error [get_og_1; get_og_2] (i mod length [get_og_1; get_og_2])
            = Some (call_other c).
Proof.
  assert (H1 : [get_og_1; get_og_2] <> []) by discriminate.
  assert (H2 : py_max [1; 3; 5] = Return 5) by reflexivity.
  assert (H3 : 1 <= 5) by discriminate.
  assert (H4 : (Z.to_nat 5 <= 5)%nat) by (vm_compute; repeat constructor).
  apply (generate_og_stochastic_next_block compose_graphix Z lcg_seed lcg_draw
           lcg_draw 5%nat 0 [get_og_1; get_og_2] [1; 3; 5] 5 (-1) 42
           H1 H2 H3 H4 compose_graphix_total lcg_draw_in_range lcg_draw_in_range).
Defined.

Lemma get_grid_composition_schedule_witness :
  (1 <= 2 /\ 1 <= 3 /\ (Z.to_nat 3 <= 3)%nat)
  /\ get_grid_composition compose_graphix 3 get_og_1 2 3
     = (ls <- get_layers compose_graphix get_og_1 2 ;;
        for_each (py_range 0 (3 - 1))
                 (fun i g => if Z.even i then add_l1 compose_graphix (snd ls) g
                             else add_l0 compose_graphix (fst ls) g)
                 (fst ls)).
Proof.
  assert (H1 : 1 <= 2) by discriminate.
  assert (H2 : 1 <= 3) by discriminate.
  assert (H3 : (Z.to_nat 3 <= 3)%nat) by (vm_compute; repeat constructor).
  split; [repeat split; assumption |].
  apply (get_grid_composition_schedule compose_graphix 3%nat get_og_1 2 3 H1 H2 H3).
Defined.

Lemma generate_og_parallel_node_counts_witness :
  map_outcome snd
    (generate_og compose_graphix Z lcg_seed lcg_draw lcg_draw
                 5 0 [get_og_1; get_og_2] [1; 3; 5] 0 None false 42)
  = Return (node_counts (nodup Z.eq_dec [1; 3; 5]%Z)
              (combine (py_range 1 5)
                       (cycle_take (Z.to_nat (5 - 1)) [get_og_1; get_og_2]
                                   [get_og_1; get_og_2]))
              (order (inside get_og_1))).
Proof.
  assert (H0 : Forall (fun og => NoDup (nodes (inside og))) [get_og_1; get_og_2]).
  { constructor; [apply (po_nodes _ get_og_1_ports_ok) |].
    constructor; [apply (po_nodes _ get_og_2_ports_ok) | constructor]. }
  assert (H2 : py_max [1; 3; 5] = Return 5) by reflexivity.
  assert (H3 : 1 <= 5) by discriminate.
  assert (H4 : (Z.to_nat 5 <= 5)%nat) by (vm_compute; repeat constructor).
  apply (generate_og_parallel_node_counts Z lcg_seed lcg_draw lcg_draw
           5%nat 0 get_og_1 [get_og_2] [1; 3; 5] 5 None 42 H0 H2 H3 H4).
Defined.

Lemma generate_og_step_boundary_witness :
  let s := mkGenState Z get_og_1 [] [] 0 [] in
  (ports_ok (gs_og1 s) /\ ports_ok get_og_2)
  /\ exists s',
       gen_body compose_graphix Z lcg_draw false 1 [1; 3; 5] 1 get_og_2 s = Return s'
       /\ ports_ok (gs_og1 s')
       /\ py_len (inputs (gs_og1 s'))
          = py_len (inputs (gs_og1 s)) + py_len (inputs get_og_2)
            - effective_width (gs_og1 s) get_og_2 1
       /\ py_len (outputs (gs_og1 s'))
          = py_len (outputs (gs_og1 s)) + py_len (outputs get_og_2)
            - effective_width (gs_og1 s) get_og_2 1
       /\ order (inside (gs_og1 s'))
          = order (inside (gs_og1 s)) + order (inside get_og_2)
            - effective_width (gs_og1 s) get_og_2 1.
Proof.
  cbv zeta. split; [split; [exact get_og_1_ports_ok | exact get_og_2_ports_ok] |].
  apply (generate_og_step_boundary Z lcg_draw 1 [1; 3; 5] 1 get_og_2
           (mkGenState Z get_og_1 [] [] 0 []) get_og_1_ports_ok get_og_2_ports_ok).
Defined.

Lemma generate_og_snapshots_well_formed_witness :
  exists og_lst,
    generate_og compose_graphix Z lcg_seed lcg_draw lcg_draw
                5 0 [get_og_1; get_og_2] [1; 3; 5] 1 None false 42
    = Return (og_lst, map (fun og => order (inside og)) og_lst)
    /\ Forall ports_ok og_lst.
Proof.
  assert (H0 : Forall ports_ok [get_og_1; get_og_2]).
  { constructor; [exact get_og_1_ports_ok |].
    constructor; [exact get_og_2_ports_ok | constructor]. }
  assert (H2 : py_max [1; 3; 5] = Return 5) by reflexivity.
  assert (H3 : 1 <= 5) by discriminate.
  assert (H4 : (Z.to_nat 5 <= 5)%nat) by (vm_compute; repeat constructor).
  apply (generate_og_snapshots_well_formed Z lcg_seed lcg_draw lcg_draw
           5%nat 0 get_og_1 [get_og_2] [1; 3; 5] 5 1 42 H0 H2 H3 H4).
Defined.

Lemma get_series_composition_boundary_witness :
  (ports_ok get_og_1 /\ length (inputs get_og_1) = length (outputs get_og_1))
  /\ exists og',
       get_series_composition compose_graphix get_og_1 3 = Return og'
       /\ ports_ok og'
       /\ length (inputs og') = length (inputs get_og_1)
       /\ length (outputs og') = length (outputs get_og_1).
Proof.
  split; [split; [exact get_og_1_ports_ok | reflexivity] |].
  apply (get_series_composition_boundary get_og_1 3 get_og_1_ports_ok eq_refl).
Defined.

(** ** One layer *)

Lemma par_step_order og aux :
  ports_ok og -> bounded_ids og -> ports_ok aux ->
  length (nodes (inside (par_step aux og)))
  = (length (nodes (inside og)) + length (nodes (inside aux)))%nat.
Proof.
  intros Hok Hb Ha. unfold par_step. cbv zeta.
  rewrite (par_mapping_dict og aux Ha).
  rewrite (par_nodes og aux Hb Ha), length_app, length_map. reflexivity.
Qed.

Lemma par_iter_order og :
  ports_ok og -> bounded_ids og ->
  forall j,
    length (nodes (inside (Nat.iter j (par_step og) og)))
    = (S j * length (nodes (inside og)))%nat.
Proof.
  intros Hok Hb. induction j as [| j IH]; [simpl; lia |].
  rewrite Nat.iter_succ.
  destruct (par_iter_inv og Hok Hb j) as [I1 [I2 _]].
  rewrite (par_step_order _ og I1 I2 Hok), IH. lia.
Qed.

(** X14.  With a single layer the grid is [n_rows] copies of the block side
    by side, none of them merged: on the merge model, for a well-formed block
    whose identifiers are below its order, the result is well formed and has
    [n_rows] times the inputs, the outputs and the nodes of the block. *)
Theorem get_grid_composition_one_layer fuel og n_rows :
  ports_ok og ->
  bounded_ids og ->
  1 <= n_rows ->
  (1 <= fuel)%nat ->
  exists og',
    get_grid_composition compose_graphix fuel og n_rows 1 = Return og'
    /\ ports_ok og'
    /\ py_len (inputs og') = n_rows * py_len (inputs og)
    /\ py_len (outputs og') = n_rows * py_len (outputs og)
    /\ order (inside og') = n_rows * order (inside og).
Proof.
  intros Hok Hb Hr Hf. unfold get_grid_composition.
  destruct (Z.ltb_spec n_rows 1); [lia |]. change (1 <? 1) with false. cbv iota.
  rewrite get_layers_graphix by exact Hr. cbn [bind fst snd].
  destruct fuel as [| fuel]; [lia |].
  cbn [enumerate_cycle cycle_next]. change (0 =? 1 - 1) with true. cbv iota.
  eexists. split; [reflexivity |].
  destruct (par_iter_inv og Hok Hb (Z.to_nat (n_rows - 1))) as [I1 [_ [I3 I4]]].
  assert (I5 := par_iter_order og Hok Hb (Z.to_nat (n_rows - 1))).
  split; [exact I1 |]. unfold order, py_len. rewrite I3, I4, I5.
  rewrite !Nat2Z.inj_mul.
  replace (Z.of_nat (S (Z.to_nat (n_rows - 1)))) with n_rows by lia.
  repeat split; reflexivity.
Qed.

Lemma get_grid_composition_one_layer_witness :
  exists og',
    get_grid_composition compose_graphix 1 get_og_1 3 1 = Return og'
    /\ ports_ok og'
    /\ py_len (inputs og') = 3 * py_len (inputs get_og_1)
    /\ py_len (outputs og') = 3 * py_len (outputs get_og_1)
    /\ order (inside og') = 3 * order (inside get_og_1).
Proof.
  assert (H1 : 1 <= 3) by discriminate.
  assert (H2 : (1 <= 1)%nat) by constructor.
  apply (get_grid_composition_one_layer 1%nat get_og_1 3
           get_og_1_ports_ok get_og_1_bounded H1 H2).
Defined.
